(** * Campus commerce backend

    A shallow embedding of [backend/main.py] (the request handlers) and
    [schemas.py] (the entity schemas), together with the statements the
    specification makes about them.

    Python dictionaries are [gmap string value]; Python floats are the
    binary64 numbers of [PrimFloat]; Python integers are [Z].  Handlers run
    in a state-and-exception monad over the document store. *)

From Stdlib Require Import ZArith NArith String Ascii Floats List.
From stdpp Require Import gmap strings list fin_maps pretty.

Set Default Proof Using "Type".
Open Scope string_scope.
Open Scope list_scope.
Open Scope Z_scope.

(** ** Python values *)

(** The values that occur in request bodies, documents and responses.
    [VOid] is a BSON ObjectId, the identifier type the store assigns. *)
#[warnings="-register-all"]
Inductive value : Type :=
| VNone
| VBool (b : bool)
| VInt (z : Z)
| VFloat (f : float)
| VStr (s : string)
| VOid (n : N)
| VList (l : list value)
| VDict (d : gmap string value).

Abbreviation dict := (gmap string value).

(** Truth value testing, as [if v:] does it. *)
Definition truthy (v : value) : bool :=
  match v with
  | VNone => false
  | VBool b => b
  | VInt z => negb (z =? 0)
  | VFloat f => negb (PrimFloat.eqb f 0%float)
  | VStr s => negb (String.eqb s "")
  | VOid _ => true
  | VList l => match l with [] => false | _ :: _ => true end
  | VDict d => negb (Nat.eqb (size d) 0)
  end.

(** [if s:] on an [Optional[str]]: [None] and the empty string are false. *)
Definition truthy_str (o : option string) : bool :=
  match o with
  | Some s => negb (String.eqb s "")
  | None => false
  end.

(** *** ObjectId rendering *)

Definition hex_digit (n : N) : ascii :=
  match n with
  | 0%N => "0" | 1%N => "1" | 2%N => "2" | 3%N => "3"
  | 4%N => "4" | 5%N => "5" | 6%N => "6" | 7%N => "7"
  | 8%N => "8" | 9%N => "9" | 10%N => "a" | 11%N => "b"
  | 12%N => "c" | 13%N => "d" | 14%N => "e" | _ => "f"
  end%char.

(** [width] hexadecimal digits of [n], most significant first. *)
Fixpoint hex_fixed (width : nat) (n : N) : string :=
  match width with
  | O => ""
  | S w => String (hex_digit ((n / 16 ^ N.of_nat w) mod 16)%N) (hex_fixed w n)
  end.

(** Modelled from the spec: the store is absent from the sources; it hands
    out identifiers that reach the caller "as an opaque string".  An
    ObjectId prints as 24 hexadecimal digits. *)
Definition oid_str (n : N) : string := hex_fixed 24 n.

(** [str(v)].  [None] stands for the renderings this development does not
    cover (floats and containers), which no identifier of the store has. *)
Definition py_str (v : value) : option string :=
  match v with
  | VNone => Some "None"
  | VBool true => Some "True"
  | VBool false => Some "False"
  | VInt z => Some (pretty z)
  | VStr s => Some s
  | VOid n => Some (oid_str n)
  | VFloat _ | VList _ | VDict _ => None
  end.

(** ** Exceptions and outcomes *)

Inductive exn : Type :=
| Exception (msg : string)
| OverflowError (msg : string)
| HTTPException (status_code : Z) (detail : string).

(** [str(e)] *)
Definition str_exn (e : exn) : string :=
  match e with
  | Exception msg => msg
  | OverflowError msg => msg
  | HTTPException c d => pretty c +:+ ": " +:+ d
  end.

(** How a Python computation ends: with a value, with a raised exception,
    or outside the fragment covered here ([Stuck], see [py_str]). *)
Inductive outcome (A : Type) : Type :=
| Val (a : A)
| Exc (e : exn)
| Stuck.
Arguments Val {A} a.
Arguments Exc {A} e.
Arguments Stuck {A}.

(** ** Float arithmetic of [create_order] *)

(** The literal [0.01]: the binary64 number nearest to one hundredth. *)
Definition tolerance : float := 0x1.47ae147ae147bp-7%float.

(** [float(z)] as the mixed product [price * quantity] computes it:
    rounded to nearest even, [OverflowError] when out of range. *)
Definition float_of_int (z : Z) : outcome float :=
  match binary_normalize prec emax z 0 false with
  | S754_infinity _ => Exc (OverflowError "int too large to convert to float")
  | sf => Val (SF2Prim sf)
  end.

(** ** Entity schemas ([schemas.py]) *)

(** A pydantic validation error: the kind and the field it is about. *)
Inductive verr : Type :=
| missing (loc : string)
| greater_than_equal (loc : string).

Definition required {A : Type} (loc : string) (o : option A) : list verr :=
  match o with
  | Some _ => []
  | None => [missing loc]
  end.

(** [Field(..., ge=0)] on a float: [NaN >= 0] is false. *)
Definition required_ge0 (loc : string) (o : option float) : list verr :=
  match o with
  | Some f => if PrimFloat.leb 0%float f then [] else [greater_than_equal loc]
  | None => [missing loc]
  end.

(** [Field(..., ge=1)] on an int. *)
Definition required_ge1 (loc : string) (o : option Z) : list verr :=
  match o with
  | Some z => if 1 <=? z then [] else [greater_than_equal loc]
  | None => [missing loc]
  end.

Definition opt_str (o : option string) : value :=
  match o with
  | Some s => VStr s
  | None => VNone
  end.

Module Product.

Record t : Type := mk {
  title : string;
  description : option string;
  price : float;
  category : string;
  in_stock : bool;
  image : option string;
  seller_name : option string
}.

(** A request body before validation: every field may be absent.  Field
    types are already those of the schema; what validation decides here is
    presence, ranges and defaults. *)
Record payload : Type := mk_payload {
  p_title : option string;
  p_description : option string;
  p_price : option float;
  p_category : option string;
  p_in_stock : option bool;
  p_image : option string;
  p_seller_name : option string
}.

Definition errors (p : payload) : list verr :=
  required "title" (p_title p) ++ required_ge0 "price" (p_price p)
  ++ required "category" (p_category p).

Definition validate (p : payload) : list verr + t :=
  match errors p, p_title p, p_price p, p_category p with
  | [], Some ti, Some pr, Some ca =>
      inr {| title := ti; description := p_description p; price := pr;
             category := ca; in_stock := default true (p_in_stock p);
             image := p_image p; seller_name := p_seller_name p |}
  | errs, _, _, _ => inl errs
  end.

Definition model_dump (p : t) : dict :=
  list_to_map
    [("title", VStr (title p)); ("description", opt_str (description p));
     ("price", VFloat (price p)); ("category", VStr (category p));
     ("in_stock", VBool (in_stock p)); ("image", opt_str (image p));
     ("seller_name", opt_str (seller_name p))].

End Product.

Module OrderItem.

Record t : Type := mk {
  product_id : string;
  title : string;
  price : float;
  quantity : Z;
  image : option string
}.

Record payload : Type := mk_payload {
  p_product_id : option string;
  p_title : option string;
  p_price : option float;
  p_quantity : option Z;
  p_image : option string
}.

Definition errors (p : payload) : list verr :=
  required "product_id" (p_product_id p) ++ required "title" (p_title p)
  ++ required_ge0 "price" (p_price p) ++ required_ge1 "quantity" (p_quantity p).

Definition validate (p : payload) : list verr + t :=
  match errors p, p_product_id p, p_title p, p_price p, p_quantity p with
  | [], Some pid, Some ti, Some pr, Some qu =>
      inr {| product_id := pid; title := ti; price := pr; quantity := qu;
             image := p_image p |}
  | errs, _, _, _, _ => inl errs
  end.

Definition model_dump (i : t) : dict :=
  list_to_map
    [("product_id", VStr (product_id i)); ("title", VStr (title i));
     ("price", VFloat (price i)); ("quantity", VInt (quantity i));
     ("image", opt_str (image i))].

End OrderItem.

Module Order.

Record t : Type := mk {
  buyer_name : string;
  buyer_email : string;
  items : list OrderItem.t;
  payment_method : string;
  status : string;
  total_amount : float
}.

Record payload : Type := mk_payload {
  p_buyer_name : option string;
  p_buyer_email : option string;
  p_items : option (list OrderItem.payload);
  p_payment_method : option string;
  p_status : option string;
  p_total_amount : option float
}.

(** Validates the items in order; the errors of all of them are reported. *)
Fixpoint validate_items (ps : list OrderItem.payload) : list verr + list OrderItem.t :=
  match ps with
  | [] => inr []
  | p :: ps' =>
      match OrderItem.validate p, validate_items ps' with
      | inr i, inr is' => inr (i :: is')
      | inl e, inr _ => inl e
      | inr _, inl es => inl es
      | inl e, inl es => inl (e ++ es)
      end
  end.

Definition items_errors (o : option (list OrderItem.payload)) : list verr :=
  match o with
  | Some ps => match validate_items ps with inl es => es | inr _ => [] end
  | None => [missing "items"]
  end.

Definition errors (p : payload) : list verr :=
  required "buyer_name" (p_buyer_name p) ++ required "buyer_email" (p_buyer_email p)
  ++ items_errors (p_items p) ++ required_ge0 "total_amount" (p_total_amount p).

Definition validate (p : payload) : list verr + t :=
  match errors p, p_buyer_name p, p_buyer_email p,
        p_items p ≫= (λ ps, match validate_items ps with inr l => Some l | inl _ => None end),
        p_total_amount p with
  | [], Some bn, Some be, Some its, Some ta =>
      inr {| buyer_name := bn; buyer_email := be; items := its;
             payment_method := default "COD" (p_payment_method p);
             status := default "pending" (p_status p); total_amount := ta |}
  | errs, _, _, _, _ => inl errs
  end.

Definition model_dump (o : t) : dict :=
  list_to_map
    [("buyer_name", VStr (buyer_name o)); ("buyer_email", VStr (buyer_email o));
     ("items", VList ((λ i, VDict (OrderItem.model_dump i)) <$> items o));
     ("payment_method", VStr (payment_method o)); ("status", VStr (status o));
     ("total_amount", VFloat (total_amount o))].

End Order.

(** ** The document store ([database.py]) *)

(** [database.py] is not among the sources; this section follows the
    adapter contract of the specification. *)

(** Modelled from the spec: a persisted document is the entity's field set
    plus "a store-assigned identifier field". *)
Record StoredDoc : Type := mk_doc {
  doc_oid : N;
  doc_fields : dict
}.

(** The dictionary a query returns for a stored document. *)
Definition to_dict (d : StoredDoc) : dict :=
  <["_id" := VOid (doc_oid d)]> (doc_fields d).

(** Modelled from the spec: the store handle.  [db_faults] scripts the
    outcome of the coming round trips to the store, oldest first:
    [Some msg] makes the next one fail with message [msg], [None] (or an
    exhausted script) lets it succeed.  [db_name] is the handle's [name]
    attribute when it has one.  [db_regex] is the store's regular
    expression engine: [db_regex pattern options] is [inl msg] when the
    store refuses the pattern, [msg] being the text of its refusal, and
    otherwise [inr] of the test the pattern performs on a string.  What the engine makes of a pattern is the store's business;
    nothing is assumed of it. *)
Record Database : Type := mk_db {
  db_name : option string;
  db_colls : gmap string (list StoredDoc);
  db_next_oid : N;
  db_faults : list (option string);
  db_regex : string → string → string + (string → bool)
}.

(** Calls into the store, recorded in the order they are made. *)
Inductive call : Type :=
| call_create_document (collection_name : string)
| call_get_documents (collection_name : string)
| call_list_collection_names.

(** The state a handler runs in: the module-level handle [db] ([None]
    when it was never initialised) and the trace of store calls. *)
Record World : Type := mk_world {
  db : option Database;
  calls : list call
}.

Definition docs_of (w : World) (collection_name : string) : list StoredDoc :=
  match db w with
  | Some d => default [] (db_colls d !! collection_name)
  | None => []
  end.

(** *** The handler monad *)

Definition M (A : Type) : Type := World → outcome A * World.

Definition ret {A : Type} (a : A) : M A := λ w, (Val a, w).

Definition raise {A : Type} (e : exn) : M A := λ w, (Exc e, w).

Definition lift {A : Type} (o : outcome A) : M A := λ w, (o, w).

Definition bind {A B : Type} (m : M A) (k : A → M B) : M B := λ w,
  match m w with
  | (Val a, w') => k a w'
  | (Exc e, w') => (Exc e, w')
  | (Stuck, w') => (Stuck, w')
  end.

(** [try: body except Exception as e: handler e] *)
Definition try_except {A : Type} (body : M A) (handler : exn → M A) : M A := λ w,
  match body w with
  | (Exc e, w') => handler e w'
  | r => r
  end.

#[global] Instance M_ret : MRet M := @ret.
#[global] Instance M_bind : MBind M := λ A B k m, bind m k.

(** An expression statement: the value of [m] is dropped. *)
Definition discard {A : Type} (m : M A) : M unit := bind m (λ _, ret tt).

Fixpoint for_each {A : Type} (l : list A) (body : A → M unit) : M unit :=
  match l with
  | [] => ret tt
  | x :: l' => bind (body x) (λ _, for_each l' body)
  end.

(** *** Filters *)

(** Modelled from the spec: a filter is "a structured predicate supporting
    at minimum exact-field-equality and case-insensitive substring match".
    [CEq s] is the filter value [s]; [CRegex q o] is
    [{"$regex": q, "$options": o}]; [FOr] is the value of an ["$or"] key. *)
Inductive cond : Type :=
| CEq (s : string)
| CRegex (pattern options : string).

Inductive fval : Type :=
| FCond (c : cond)
| FOr (clauses : list (gmap string cond)).

Definition lower_ascii (a : ascii) : ascii :=
  let n := N_of_ascii a in
  if ((65 <=? n) && (n <=? 90))%N then ascii_of_N (n + 32) else a.

Fixpoint lower (s : string) : string :=
  match s with
  | EmptyString => EmptyString
  | String a s' => String (lower_ascii a) (lower s')
  end.

(** [contains pat s]: [pat] occurs in [s] as a contiguous substring. *)
Fixpoint contains (pat s : string) : bool :=
  String.prefix pat s ||
  match s with
  | EmptyString => false
  | String _ s' => contains pat s'
  end.


(** The store's engine, see [db_regex]. *)
Definition regex_engine : Type := string → string → string + (string → bool).

(** A [$regex] condition is evaluated by the store's engine. *)
Definition cond_holds (engine : regex_engine) (c : cond) (field : option value) : bool :=
  match c, field with
  | CEq s, Some (VStr s') => String.eqb s s'
  | CRegex pat opts, Some (VStr s') =>
      match engine pat opts with
      | inr test => test s'
      | inl _ => false
      end
  | _, _ => false
  end.

Definition clause_holds (engine : regex_engine) (cl : gmap string cond)
    (doc : dict) : bool :=
  bool_decide (map_Forall (λ k c, cond_holds engine c (doc !! k) = true) cl).

Definition fval_holds (engine : regex_engine) (k : string) (fv : fval)
    (doc : dict) : bool :=
  match fv with
  | FCond c => cond_holds engine c (doc !! k)
  | FOr cls => existsb (λ cl, clause_holds engine cl doc) cls
  end.

Definition matches (engine : regex_engine) (filt : gmap string fval)
    (doc : dict) : bool :=
  bool_decide (map_Forall (λ k fv, fval_holds engine k fv doc = true) filt).

(** The refusals the engine makes of the patterns of a filter. *)
Definition cond_errors (engine : regex_engine) (c : cond) : list string :=
  match c with
  | CEq _ => []
  | CRegex pat opts =>
      match engine pat opts with
      | inl msg => [msg]
      | inr _ => []
      end
  end.

Definition clause_errors (engine : regex_engine) (cl : gmap string cond) : list string :=
  (map_to_list cl).*2 ≫= cond_errors engine.

Definition fval_errors (engine : regex_engine) (fv : fval) : list string :=
  match fv with
  | FCond c => cond_errors engine c
  | FOr cls => cls ≫= clause_errors engine
  end.

Definition filter_errors (engine : regex_engine) (filt : gmap string fval) : list string :=
  (map_to_list filt).*2 ≫= fval_errors engine.

(** *** Adapter operations *)

Definition log (c : call) : M unit := λ w,
  (Val tt, {| db := db w; calls := calls w ++ [c] |}).

Definition set_faults (fs : list (option string)) (d : Database) : Database :=
  {| db_name := db_name d; db_colls := db_colls d;
     db_next_oid := db_next_oid d; db_faults := fs; db_regex := db_regex d |}.

(** Modelled from the spec: an operation "fails with a StoreError if the
    underlying connection is unavailable or the write is rejected".  One
    round trip consumes one entry of the fault script. *)
Definition round_trip {A : Type} (op : Database → A * Database) : M A := λ w,
  match db w with
  | None => (Exc (Exception "Database not available"), w)
  | Some d =>
      match db_faults d with
      | Some msg :: rest =>
          (Exc (Exception msg), {| db := Some (set_faults rest d); calls := calls w |})
      | _ =>
          let '(a, d') := op (set_faults (tail (db_faults d)) d) in
          (Val a, {| db := Some d'; calls := calls w |})
      end
  end.

Definition insert_one (collection_name : string) (data : dict)
    (d : Database) : N * Database :=
  let oid := db_next_oid d in
  let doc := {| doc_oid := oid; doc_fields := delete "_id" data |} in
  (oid,
   {| db_name := db_name d;
      db_colls := <[collection_name :=
                     default [] (db_colls d !! collection_name) ++ [doc]]> (db_colls d);
      db_next_oid := N.succ oid;
      db_faults := db_faults d;
      db_regex := db_regex d |}).

(** Modelled from the spec: a query returns the "matching documents up to
    [limit], in store-native order" (here the order of insertion); a
    pattern the store's engine refuses makes the query fail with the
    text of the refusal. *)
Definition find (collection_name : string) (filt : gmap string fval) (limit : Z)
    (d : Database) : outcome (list dict) * Database :=
  (match filter_errors (db_regex d) filt with
   | [] =>
       Val (take (Z.to_nat limit)
              (List.filter (matches (db_regex d) filt)
                 (to_dict <$> default [] (db_colls d !! collection_name))))
   | msg :: _ => Exc (Exception msg)
   end,
   d).

Definition collection_names (d : Database) : list string * Database :=
  ((map_to_list (db_colls d)).*1, d).

(** Modelled from the spec: [create_document(collection_name, entity)]
    "inserts the entity's field set (excluding any client-supplied
    identifier) into the named collection; returns the newly assigned
    identifier as a string".  The entity arrives as its field dictionary. *)
Definition create_document (collection_name : string) (data : dict) : M string :=
  _ ← log (call_create_document collection_name);
  oid ← round_trip (insert_one collection_name data);
  mret (oid_str oid).

(** Modelled from the spec: [get_documents(collection_name, filter, limit)]
    "returns a sequence of matching documents up to [limit], in
    store-native order"; here the order of insertion. *)
Definition get_documents (collection_name : string) (filt : gmap string fval)
    (limit : Z) : M (list dict) :=
  _ ← log (call_get_documents collection_name);
  found ← round_trip (find collection_name filt limit);
  lift found.

(** [db.list_collection_names()] *)
Definition list_collection_names : M (list string) :=
  _ ← log call_list_collection_names;
  round_trip collection_names.

(** ** Request handlers ([backend/main.py]) *)

Definition read_root : M value :=
  mret (VDict {["message" := VStr "Campus commerce backend running"]}).

(** Utility to convert ObjectId to string in results *)
Definition _serialize (doc : dict) : outcome dict :=
  match doc !! "_id" with
  | Some v =>
      if truthy v then
        match py_str v with
        | Some s => Val (<["id" := VStr s]> (delete "_id" doc))
        | None => Stuck
        end
      else Val doc
  | None => Val doc
  end.

(** [[_serialize(d) for d in docs]] *)
Fixpoint serialize_all (docs : list dict) : outcome (list dict) :=
  match docs with
  | [] => Val []
  | d :: docs' =>
      match _serialize d with
      | Val d' =>
          match serialize_all docs' with
          | Val l => Val (d' :: l)
          | Exc e => Exc e
          | Stuck => Stuck
          end
      | Exc e => Exc e
      | Stuck => Stuck
      end
  end.

(** *** Products *)

Definition create_product (product : Product.t) : M value :=
  try_except
    (product_id ← create_document "product" (Product.model_dump product);
     mret (VDict {["id" := VStr product_id]}))
    (λ e, raise (HTTPException 500 (str_exn e))).

Definition regex_i (field q : string) : gmap string cond :=
  {[field := CRegex q "i"]}.

(** The filter [list_products] builds from its query parameters. *)
Definition build_filter (category q : option string) : gmap string fval :=
  let filt := ∅ in
  let filt :=
    if truthy_str category then <["category" := FCond (CEq (default "" category))]> filt
    else filt in
  let filt :=
    if truthy_str q then
      (* Simple text search across fields *)
      <["$or" := FOr [regex_i "title" (default "" q);
                      regex_i "description" (default "" q);
                      regex_i "category" (default "" q)]]> filt
    else filt in
  filt.

Definition list_products (category q : option string) (limit : Z) : M value :=
  try_except
    (docs ← get_documents "product" (build_filter category q) limit;
     l ← lift (serialize_all docs);
     mret (VList (VDict <$> l)))
    (λ e, raise (HTTPException 500 (str_exn e))).

(** [limit: int = 50] *)
Definition default_limit : Z := 50.

Definition demo_products : list dict :=
  [
   list_to_map
     [("title", VStr "Maggi Bowl (Hot & Fresh)");
      ("description", VStr "Cooked to order at the canteen. Pickup in 10 mins.");
      ("price", VInt 45);
      ("category", VStr "Food");
      ("in_stock", VBool true);
      ("image", VStr "https://images.unsplash.com/photo-1526318472351-c75fcf070305?q=80&w=1200&auto=format&fit=crop");
      ("seller_name", VStr "Campus Canteen")];
   list_to_map
     [("title", VStr "Data Structures Notes (PDF)");
      ("description", VStr "Second-year topper notes. Clean and concise.");
      ("price", VInt 79);
      ("category", VStr "Notes");
      ("in_stock", VBool true);
      ("image", VStr "https://images.unsplash.com/photo-1524995997946-a1c2e315a42f?q=80&w=1200&auto=format&fit=crop");
      ("seller_name", VStr "Ananya (CSE)")];
   list_to_map
     [("title", VStr "College Hoodie (Navy)");
      ("description", VStr "Official club merchandise. Sizes S-XL.");
      ("price", VInt 999);
      ("category", VStr "Merch");
      ("in_stock", VBool true);
      ("image", VStr "https://images.unsplash.com/photo-1548883354-7622d03aca27?q=80&w=1200&auto=format&fit=crop");
      ("seller_name", VStr "Design Club")];
   list_to_map
     [("title", VStr "Event Pass - Battle of Bands");
      ("description", VStr "Entry ticket for Saturday 7 PM, Auditorium.");
      ("price", VInt 199);
      ("category", VStr "Events");
      ("in_stock", VBool true);
      ("image", VStr "https://images.unsplash.com/photo-1459749411175-04bf5292ceea?q=80&w=1200&auto=format&fit=crop");
      ("seller_name", VStr "Music Club")];
   list_to_map
     [("title", VStr "Exam Kit (Pens + Highlighter)");
      ("description", VStr "Everything you need for finals week.");
      ("price", VInt 129);
      ("category", VStr "Stationery");
      ("in_stock", VBool true);
      ("image", VStr "https://images.unsplash.com/photo-1481070555726-e2fe8357725c?q=80&w=1200&auto=format&fit=crop");
      ("seller_name", VStr "Stationery Shop")]
  ].

(** Insert demo products if collection is empty *)
Definition seed_products : M value :=
  try_except
    (existing ← get_documents "product" ∅ 1;
     match existing with
     | _ :: _ =>
         mret (VDict (list_to_map [("status", VStr "ok");
                                   ("message", VStr "Products already exist")]))
     | [] =>
         _ ← for_each demo_products
               (λ p, discard (create_document "product" p));
         mret (VDict (list_to_map [("status", VStr "ok");
                                   ("inserted", VInt (Z.of_nat (length demo_products)))]))
     end)
    (λ e, raise (HTTPException 500 (str_exn e))).

(** *** Orders *)

(** [item.price * item.quantity]: the integer is converted first. *)
Definition line_total (item : OrderItem.t) : outcome float :=
  match float_of_int (OrderItem.quantity item) with
  | Val q => Val (OrderItem.price item * q)%float
  | Exc e => Exc e
  | Stuck => Stuck
  end.

(** [sum(...)], accumulating from the left.  The start value is the
    integer [0], which the first addition converts to [0.0]. *)
Fixpoint py_sum (acc : float) (items : list OrderItem.t) : outcome float :=
  match items with
  | [] => Val acc
  | item :: items' =>
      match line_total item with
      | Val x => py_sum (acc + x)%float items'
      | Exc e => Exc e
      | Stuck => Stuck
      end
  end.

Definition computed_total (order : Order.t) : outcome float :=
  py_sum 0%float (Order.items order).

(** [abs(computed_total - order.total_amount) > 0.01] *)
Definition total_mismatch (computed : float) (order : Order.t) : bool :=
  PrimFloat.ltb tolerance (abs (computed - Order.total_amount order))%float.

Definition create_order (order : Order.t) : M value :=
  (* Compute total to prevent tampering from client *)
  computed ← lift (computed_total order);
  if total_mismatch computed order then
    raise (HTTPException 400 "Invalid total amount")
  else
    try_except
      (order_id ← create_document "order" (Order.model_dump order);
       mret (VDict {["id" := VStr order_id]}))
      (λ e, raise (HTTPException 500 (str_exn e))).

(** *** Diagnostics *)

(** A continuation byte of a UTF-8 sequence: [10xxxxxx]. *)
Definition is_continuation (a : ascii) : bool :=
  let n := N_of_ascii a in ((128 <=? n) && (n <? 192))%N.

(** The first [n] characters of a string.  Strings are kept as their UTF-8
    bytes, and Python slices by character: a continuation byte stays with
    the character it belongs to. *)
Fixpoint take_chars (n : nat) (s : string) : string :=
  match s with
  | EmptyString => EmptyString
  | String a s' =>
      if is_continuation a then String a (take_chars n s')
      else
        match n with
        | O => EmptyString
        | S n' => String a (take_chars n' s')
        end
  end.

(** [s[:50]] *)
Definition first50 (s : string) : string := take_chars 50 s.

(** [os.getenv] over the process environment. *)
Definition getenv (env : gmap string string) (key : string) : option string :=
  env !! key.

Definition set_or_not (o : option string) : value :=
  if truthy_str o then VStr "✅ Set" else VStr "❌ Not Set".

Definition initial_response : dict :=
  list_to_map
    [("backend", VStr "✅ Running");
     ("database", VStr "❌ Not Available");
     ("database_url", VNone);
     ("database_name", VNone);
     ("connection_status", VStr "Not Connected");
     ("collections", VList [])].

(** The body of the outer [try].  Outside the inner [try] none of its
    statements raises, so the outer handler only ever sees [response] as it
    was at the start. *)
Definition probe (response : dict) : M dict := λ w,
  match db w with
  | Some d =>
      let response := <["database" := VStr "✅ Available"]> response in
      let response := <["database_url" := VStr "✅ Configured"]> response in
      let response :=
        <["database_name" :=
            match db_name d with
            | Some n => VStr n
            | None => VStr "✅ Connected"
            end]> response in
      let response := <["connection_status" := VStr "Connected"]> response in
      try_except
        (collections ← list_collection_names;
         let response := <["collections" := VList (VStr <$> take 10 collections)]> response in
         mret (<["database" := VStr "✅ Connected & Working"]> response))
        (λ e, mret (<["database" :=
                        VStr ("⚠️  Connected but Error: " +:+ first50 (str_exn e))]> response))
        w
  | None =>
      (Val (<["database" := VStr "⚠️  Available but not initialized"]> response), w)
  end.

(** Test endpoint to check if database is available and accessible *)
Definition test_database (env : gmap string string) : M value :=
  let response := initial_response in
  response ←
    try_except (probe response)
      (λ e, mret (<["database" := VStr ("❌ Error: " +:+ first50 (str_exn e))]> response));
  (* Check environment variables *)
  let response := <["database_url" := set_or_not (getenv env "DATABASE_URL")]> response in
  let response := <["database_name" := set_or_not (getenv env "DATABASE_NAME")]> response in
  mret (VDict response).

(** *** The application *)

Inductive request : Type :=
| GET_root
| POST_products (body : Product.payload)
| GET_products (category q : option string) (limit : option Z)
| POST_seed
| POST_orders (body : Order.payload)
| GET_test.

(** What a request leads to: a schema-level rejection before the handler
    runs, or the handler's outcome. *)
Inductive reply : Type :=
| Unprocessable (errs : list verr)
| Handled (o : outcome value).

Definition handled (m : M value) (w : World) : reply * World :=
  let '(o, w') := m w in (Handled o, w').

Definition app (env : gmap string string) (req : request) (w : World) : reply * World :=
  match req with
  | GET_root => handled read_root w
  | POST_products body =>
      match Product.validate body with
      | inr product => handled (create_product product) w
      | inl errs => (Unprocessable errs, w)
      end
  | GET_products category q limit =>
      handled (list_products category q (default default_limit limit)) w
  | POST_seed => handled seed_products w
  | POST_orders body =>
      match Order.validate body with
      | inr order => handled (create_order order) w
      | inl errs => (Unprocessable errs, w)
      end
  | GET_test => handled (test_database env) w
  end.

(** The store after a sequence of requests, served one after the other. *)
Fixpoint run (env : gmap string string) (reqs : list request) (w : World) : World :=
  match reqs with
  | [] => w
  | req :: reqs' => run env reqs' (app env req w).2
  end.

(** ** Vocabulary of the statements *)

(** The failure the next store operation meets, if any. *)
Definition next_fault (w : World) : option string :=
  match db w with
  | None => Some "Database not available"
  | Some d =>
      match db_faults d with
      | Some msg :: _ => Some msg
      | _ => None
      end
  end.

(** A store that is connected and whose operations all succeed. *)
Definition reliable (w : World) : Prop :=
  match db w with
  | Some d => db_faults d = []
  | None => False
  end.

(** The public form of a stored document: its fields plus the identifier
    as the string field [id]. *)
Definition public (d : StoredDoc) : dict :=
  <["id" := VStr (oid_str (doc_oid d))]> (delete "_id" (doc_fields d)).

Definition field_is (doc : dict) (k s : string) : bool :=
  match doc !! k with
  | Some (VStr s') => String.eqb s s'
  | _ => false
  end.



(** The value stored under [k] in the body a handler returned. *)
Definition response_field (r : outcome value * World) (k : string) : option value :=
  match r.1 with
  | Val (VDict body) => body !! k
  | _ => None
  end.

(** Some returned document carries the public identifier [i]. *)
Definition lists_id (i : string) (r : outcome value * World) : bool :=
  match r.1 with
  | Val (VList l) =>
      existsb (λ v, match v with
                    | VDict doc =>
                        match doc !! "id" with
                        | Some (VStr j) => String.eqb i j
                        | _ => false
                        end
                    | _ => false
                    end) l
  | _ => false
  end.

(** The selection [list_products] asks of a store whose engine is
    [engine]: exact category equality when [category] is given, and, when
    [q] is given, the test the engine makes of the pattern [q] with option
    [i], passed by the title, the description or the category. *)
Definition field_test (doc : dict) (k : string) (test : string → bool) : bool :=
  match doc !! k with
  | Some (VStr s') => test s'
  | _ => false
  end.

Definition engine_selects (engine : regex_engine) (category q : option string)
    (doc : dict) : bool :=
  match category with
  | Some c => if String.eqb c "" then true else field_is doc "category" c
  | None => true
  end &&
  match q with
  | Some s =>
      if String.eqb s "" then true
      else
        match engine s "i" with
        | inr test =>
            field_test doc "title" test || field_test doc "description" test
            || field_test doc "category" test
        | inl _ => false
        end
  | None => true
  end.

(** ** Sample data *)

(** The characters a regular expression gives a meaning of their own,
    the dot apart. *)
Definition is_special (a : ascii) : bool :=
  existsb (Ascii.eqb a) (list_ascii_of_string "\^$*+?()[]{}|").

(** [pat] fits the start of [s], a dot in [pat] standing for any
    character but a line feed. *)
Fixpoint wild_prefix (pat s : string) : bool :=
  match pat, s with
  | EmptyString, _ => true
  | String p pat', String a s' =>
      ((Ascii.eqb p "." && negb (Ascii.eqb a "010")) || Ascii.eqb p a)
      && wild_prefix pat' s'
  | String _ _, EmptyString => false
  end.

Fixpoint wild_contains (pat s : string) : bool :=
  wild_prefix pat s ||
  match s with
  | EmptyString => false
  | String _ s' => wild_contains pat s'
  end.

(** A sample engine: it searches for the pattern anywhere in the string,
    reads a dot as any character and every other character as itself,
    folds ASCII case under option [i], and refuses the patterns that use
    another special character. *)
Definition sample_regex : regex_engine := λ pat opts,
  if existsb is_special (list_ascii_of_string pat)
  then inl ("Regular expression is invalid: " +:+ pat)
  else inr (λ s, if contains "i" opts then wild_contains (lower pat) (lower s)
                 else wild_contains pat s).

Definition campus_db : Database :=
  {| db_name := Some "campus"; db_colls := ∅; db_next_oid := 0; db_faults := [];
     db_regex := sample_regex |}.

(** A connected, empty store. *)
Definition empty_world : World := {| db := Some campus_db; calls := [] |}.

(** No store handle: [db is None]. *)
Definition no_db_world : World := {| db := None; calls := [] |}.

(** A connected store whose next operation fails. *)
Definition failing_world : World :=
  {| db := Some (set_faults [Some "connection reset"] campus_db); calls := [] |}.

Definition two_maggi : OrderItem.t :=
  {| OrderItem.product_id := "000000000000000000000000";
     OrderItem.title := "Maggi Bowl (Hot & Fresh)";
     OrderItem.price := 45; OrderItem.quantity := 2;
     OrderItem.image := None |}.

Definition order_with_total (total : float) : Order.t :=
  {| Order.buyer_name := "Ananya"; Order.buyer_email := "ananya@campus.example";
     Order.items := [two_maggi]; Order.payment_method := "COD";
     Order.status := "pending"; Order.total_amount := total |}.

Definition notes_product : Product.t :=
  {| Product.title := "Data Structures Notes (PDF)";
     Product.description := Some "Second-year topper notes. Clean and concise.";
     Product.price := 79; Product.category := "Notes"; Product.in_stock := true;
     Product.image := None; Product.seller_name := Some "Ananya (CSE)" |}.

(** A connected store that holds one product. *)
Definition stocked_world : World :=
  {| db := Some {| db_name := Some "campus";
                   db_colls := {["product" := [mk_doc 0 (Product.model_dump notes_product)]]};
                   db_next_oid := 1; db_faults := []; db_regex := sample_regex |};
     calls := [] |}.

(** The store after seeding the empty one. *)
Definition seeded_world : World := (seed_products empty_world).2.

(** The titles of the documents a listing returned. *)
Definition listed_titles (r : outcome value * World) : list (option value) :=
  match r.1 with
  | Val (VList l) =>
      (λ v, match v with VDict doc => doc !! "title" | _ => None end) <$> l
  | _ => []
  end.

(** A product body whose title is the empty string. *)
Definition untitled_payload : Product.payload :=
  {| Product.p_title := Some ""; Product.p_description := None;
     Product.p_price := Some 10%float; Product.p_category := Some "Food";
     Product.p_in_stock := None; Product.p_image := None;
     Product.p_seller_name := None |}.

(** A product body without a title. *)
Definition no_title_payload : Product.payload :=
  {| Product.p_title := None; Product.p_description := None;
     Product.p_price := Some 10%float; Product.p_category := Some "Food";
     Product.p_in_stock := None; Product.p_image := None;
     Product.p_seller_name := None |}.

Definition hoodie_product : Product.t :=
  {| Product.title := "College Hoodie (Navy)";
     Product.description := Some "Official club merchandise. Sizes S-XL.";
     Product.price := 999; Product.category := "Merch"; Product.in_stock := true;
     Product.image := None; Product.seller_name := Some "Design Club" |}.

(** A connected store that already holds 50 products. *)
Definition crowded_world : World :=
  {| db := Some {| db_name := Some "campus";
                   db_colls :=
                     {["product" :=
                         (λ i, mk_doc (N.of_nat i) (Product.model_dump notes_product))
                           <$> seq 0 50]};
                   db_next_oid := 50; db_faults := []; db_regex := sample_regex |};
     calls := [] |}.

(** The [database] entry the diagnostics report for a store state. *)
Definition database_status (w : World) : string :=
  match db w with
  | None => "⚠️  Available but not initialized"
  | Some d =>
      match db_faults d with
      | Some msg :: _ => "⚠️  Connected but Error: " +:+ first50 msg
      | _ => "✅ Connected & Working"
      end
  end.

(** A computation keeps the documents: whatever the state it starts in,
    every collection still begins with the documents it held, unchanged
    and in place. *)
Definition keeps_documents {A : Type} (m : M A) : Prop :=
  ∀ (w : World) (c : string), docs_of w c `prefix_of` docs_of (m w).2 c.

(** An order for more items than a float can count. *)
Definition oversized_order : Order.t :=
  {| Order.buyer_name := "Ananya"; Order.buyer_email := "ananya@campus.example";
     Order.items :=
       [{| OrderItem.product_id := "000000000000000000000000";
           OrderItem.title := "Maggi Bowl (Hot & Fresh)";
           OrderItem.price := 45; OrderItem.quantity := 2 ^ 1024;
           OrderItem.image := None |}];
     Order.payment_method := "COD"; Order.status := "pending";
     Order.total_amount := 90 |}.

(** ** Further schema: [User] *)

Module User.

Record t : Type := mk {
  name : string;
  email : string;
  address : option string;
  age : option Z;
  is_active : bool
}.

Record payload : Type := mk_payload {
  p_name : option string;
  p_email : option string;
  p_address : option string;
  p_age : option Z;
  p_is_active : option bool
}.

(** The errors of this schema: those of the other schemas, and the upper
    bound that only [age] has. *)
Inductive error : Type :=
| field_error (e : verr)
| less_than_equal (loc : string).

(** [Optional[int] = Field(None, ge=0, le=120)]: an absent age is fine. *)
Definition age_errors (o : option Z) : list error :=
  match o with
  | Some z =>
      if z <? 0 then [field_error (greater_than_equal "age")]
      else if 120 <? z then [less_than_equal "age"]
      else []
  | None => []
  end.

Definition errors (p : payload) : list error :=
  (field_error <$> required "name" (p_name p))
  ++ (field_error <$> required "email" (p_email p))
  ++ age_errors (p_age p).

Definition validate (p : payload) : list error + t :=
  match errors p, p_name p, p_email p with
  | [], Some n, Some e =>
      inr {| name := n; email := e; address := p_address p; age := p_age p;
             is_active := default true (p_is_active p) |}
  | errs, _, _ => inl errs
  end.

End User.

(** ** Vocabulary of the further statements *)

(** The collection a request can add documents to, if any. *)
Definition writes_to (req : request) : option string :=
  match req with
  | POST_products _ | POST_seed => Some "product"
  | POST_orders _ => Some "order"
  | GET_root | GET_products _ _ _ | GET_test => None
  end.

(** The most documents a request can add. *)
Definition max_inserts (req : request) : nat :=
  match req with
  | POST_products _ | POST_orders _ => 1
  | POST_seed => length demo_products
  | GET_root | GET_products _ _ _ | GET_test => 0
  end.

(** A computation adds at most [n] documents, all of them at the end of
    collection [target]. *)
Definition inserts_into {A : Type} (target : string) (n : nat) (m : M A) : Prop :=
  ∀ (w : World) (c : string),
    ∃ new : list StoredDoc,
      docs_of (m w).2 c = docs_of w c ++ new ∧
      (length new ≤ n)%nat ∧
      (c ≠ target → new = []).

(** A computation never leaves the covered fragment, and the values it
    returns satisfy [P]. *)
Definition yields {A : Type} (P : A → Prop) (m : M A) : Prop :=
  ∀ w : World,
    match (m w).1 with
    | Val a => P a
    | Exc _ => True
    | Stuck => False
    end.

(** An outcome a handler lets through on purpose: a value, or a status
    500 carrying a message. *)
Definition answered (o : outcome value) : Prop :=
  match o with
  | Val _ => True
  | Exc (HTTPException 500 _) => True
  | _ => False
  end.

(** The store calls a computation made, oldest first. *)
Definition calls_made {A : Type} (m : M A) (w : World) : list call :=
  drop (length (calls w)) (calls (m w).2).

(** A connected, empty store on which the probe and the first two writes
    succeed and the third write fails. *)
Definition flaky_world : World :=
  {| db := Some (set_faults [None; None; None; Some "disk full"] campus_db);
     calls := [] |}.

(** The body of an order for two Maggi bowls, status and payment method
    left out. *)
Definition maggi_order_payload : Order.payload :=
  {| Order.p_buyer_name := Some "Ananya";
     Order.p_buyer_email := Some "ananya@campus.example";
     Order.p_items :=
       Some [{| OrderItem.p_product_id := Some "000000000000000000000000";
                OrderItem.p_title := Some "Maggi Bowl (Hot & Fresh)";
                OrderItem.p_price := Some 45%float;
                OrderItem.p_quantity := Some 2;
                OrderItem.p_image := None |}];
     Order.p_payment_method := None; Order.p_status := None;
     Order.p_total_amount := Some 90%float |}.

(** An item body that asks for a quantity of zero. *)
Definition zero_quantity_item : OrderItem.payload :=
  {| OrderItem.p_product_id := Some "000000000000000000000000";
     OrderItem.p_title := Some "Maggi Bowl (Hot & Fresh)";
     OrderItem.p_price := Some 45%float;
     OrderItem.p_quantity := Some 0;
     OrderItem.p_image := None |}.

(** The body of an order without items. *)
Definition empty_order_payload (total : float) : Order.payload :=
  {| Order.p_buyer_name := Some "Ananya";
     Order.p_buyer_email := Some "ananya@campus.example";
     Order.p_items := Some [];
     Order.p_payment_method := None; Order.p_status := None;
     Order.p_total_amount := Some total |}.

(** * Properties *)

(** ** The handler monad and the adapter *)

Ltac unfold_M :=
  unfold mbind, mret, M_bind, M_ret, bind, ret, raise, lift, try_except, log in *.

Lemma docs_of_set_faults (d : Database) (fs : list (option string))
    (cs : list call) (c : string) :
  docs_of {| db := Some (set_faults fs d); calls := cs |} c
  = default [] (db_colls d !! c).
Proof. reflexivity. Qed.

Lemma next_fault_None (w : World) :
  next_fault w = None →
  ∃ d, db w = Some d ∧
       match db_faults d with Some _ :: _ => False | _ => True end.
Proof.
  unfold next_fault. destruct (db w) as [d|]; [|discriminate].
  intros H. exists d. split; [reflexivity|].
  destruct (db_faults d) as [|[msg|] rest]; try exact I. discriminate.
Qed.

(** A round trip that meets no failure runs the operation on the store. *)
Lemma round_trip_ok {A : Type} (op : Database → A * Database) (w : World) (d : Database) :
  db w = Some d →
  next_fault w = None →
  round_trip op w
  = (Val (op (set_faults (tail (db_faults d)) d)).1,
     {| db := Some (op (set_faults (tail (db_faults d)) d)).2; calls := calls w |}).
Proof.
  intros Hdb Hnf. unfold round_trip, next_fault in *. rewrite Hdb in *.
  destruct (db_faults d) as [|[msg|] rest]; try discriminate;
    simpl; destruct (op _); reflexivity.
Qed.

(** A round trip that fails raises the failure and runs nothing. *)
Lemma round_trip_fail {A : Type} (op : Database → A * Database) (w : World) (msg : string) :
  next_fault w = Some msg →
  (round_trip op w).1 = Exc (Exception msg) ∧
  calls (round_trip op w).2 = calls w ∧
  ∀ c, docs_of (round_trip op w).2 c = docs_of w c.
Proof.
  unfold next_fault, round_trip, docs_of.
  destruct (db w) as [d|] eqn:Hdb.
  - destruct (db_faults d) as [|[m|] rest]; try discriminate.
    intros [= ->]. simpl. auto.
  - intros [= <-]. simpl. rewrite Hdb. auto.
Qed.

Lemma next_fault_log (c : call) (w : World) :
  next_fault (log c w).2 = next_fault w.
Proof. reflexivity. Qed.

(** What a successful [create_document] leaves behind. *)
Lemma create_document_ok (coll : string) (data : dict) (w : World) (d : Database) :
  db w = Some d →
  next_fault w = None →
  ∃ d', create_document coll data w
        = (Val (oid_str (db_next_oid d)),
           {| db := Some d'; calls := calls w ++ [call_create_document coll] |}) ∧
        db_colls d' = <[coll := default [] (db_colls d !! coll)
                                ++ [mk_doc (db_next_oid d) (delete "_id" data)]]> (db_colls d) ∧
        db_next_oid d' = N.succ (db_next_oid d) ∧
        db_faults d' = tail (db_faults d) ∧
        db_name d' = db_name d.
Proof.
  intros Hdb Hnf. unfold create_document. unfold_M.
  rewrite (round_trip_ok _ _ d) by (simpl; assumption).
  simpl. eexists. split; [reflexivity|]. simpl. auto.
Qed.

Lemma create_document_fail (coll : string) (data : dict) (w : World) (msg : string) :
  next_fault w = Some msg →
  (create_document coll data w).1 = Exc (Exception msg) ∧
  ∀ c, docs_of (create_document coll data w).2 c = docs_of w c.
Proof.
  intros Hnf. unfold create_document. unfold_M. simpl.
  pose proof (round_trip_fail (insert_one coll data)
                {| db := db w; calls := calls w ++ [call_create_document coll] |} msg Hnf)
    as (H1 & _ & H3).
  destruct (round_trip _ _) as [[a|e|] w']; simpl in *; try discriminate.
  inversion H1; subst. split; [reflexivity|]. exact H3.
Qed.

Lemma get_documents_ok (coll : string) (filt : gmap string fval) (limit : Z)
    (w : World) (d : Database) :
  db w = Some d →
  next_fault w = None →
  get_documents coll filt limit w
  = (match filter_errors (db_regex d) filt with
     | [] =>
         Val (take (Z.to_nat limit)
                (List.filter (matches (db_regex d) filt) (to_dict <$> docs_of w coll)))
     | msg :: _ => Exc (Exception msg)
     end,
     {| db := Some (set_faults (tail (db_faults d)) d);
        calls := calls w ++ [call_get_documents coll] |}).
Proof.
  intros Hdb Hnf. unfold get_documents. unfold_M.
  rewrite (round_trip_ok _ _ d) by (simpl; assumption).
  unfold docs_of. rewrite Hdb. simpl.
  by destruct (filter_errors (db_regex d) filt).
Qed.

Lemma get_documents_fail (coll : string) (filt : gmap string fval) (limit : Z)
    (w : World) (msg : string) :
  next_fault w = Some msg →
  (get_documents coll filt limit w).1 = Exc (Exception msg) ∧
  ∀ c, docs_of (get_documents coll filt limit w).2 c = docs_of w c.
Proof.
  intros Hnf. unfold get_documents. unfold_M. simpl.
  pose proof (round_trip_fail (find coll filt limit)
                {| db := db w; calls := calls w ++ [call_get_documents coll] |} msg Hnf)
    as (H1 & _ & H3).
  destruct (round_trip _ _) as [[a|e|] w']; simpl in *; try discriminate.
  inversion H1; subst. split; [reflexivity|]. exact H3.
Qed.

Lemma docs_of_inserted (w : World) (d d' : Database) (cs : list call)
    (coll c : string) (doc : StoredDoc) :
  db w = Some d →
  db_colls d' = <[coll := default [] (db_colls d !! coll) ++ [doc]]> (db_colls d) →
  docs_of {| db := Some d'; calls := cs |} c
  = if decide (c = coll) then docs_of w coll ++ [doc] else docs_of w c.
Proof.
  intros Hw Hc. unfold docs_of. simpl. rewrite Hw, Hc.
  case_decide as Heq.
  - subst c. by rewrite lookup_insert_eq.
  - by rewrite lookup_insert_ne.
Qed.

Lemma Order_model_dump_no_id (o : Order.t) :
  delete "_id" (Order.model_dump o) = Order.model_dump o.
Proof. apply delete_id. reflexivity. Qed.

Lemma Product_model_dump_no_id (p : Product.t) :
  delete "_id" (Product.model_dump p) = Product.model_dump p.
Proof. apply delete_id. reflexivity. Qed.

(** ** Orders *)

Lemma create_order_checked (order : Order.t) (w : World) (c : float) :
  computed_total order = Val c →
  create_order order w
  = if total_mismatch c order then (Exc (HTTPException 400 "Invalid total amount"), w)
    else try_except
           (order_id ← create_document "order" (Order.model_dump order);
            mret (VDict {["id" := VStr order_id]}))
           (λ e, raise (HTTPException 500 (str_exn e))) w.
Proof.
  intros Hc. unfold create_order. unfold mbind at 1. unfold M_bind, bind, lift.
  rewrite Hc. destruct (total_mismatch c order); reflexivity.
Qed.

(** C1: an order whose recomputed total differs from the declared
    [total_amount] by more than 0.01 is rejected with status 400 and detail
    "Invalid total amount"; the state is returned as it was found, so the
    store was not called and holds no new document.  The recomputed total
    is the float [c] the handler computes; the only way for it not to exist
    is a quantity too large for a float. *)
Theorem create_order_rejects_mismatch (order : Order.t) (w : World) (c : float) :
  computed_total order = Val c →
  PrimFloat.ltb tolerance (abs (c - Order.total_amount order)) = true →
  create_order order w = (Exc (HTTPException 400 "Invalid total amount"), w).
Proof.
  intros Hc Hgt. rewrite (create_order_checked order w c Hc).
  unfold total_mismatch. by rewrite Hgt.
Qed.

Lemma create_order_rejects_mismatch_witness :
  computed_total (order_with_total 95) = Val 90%float ∧
  PrimFloat.ltb tolerance (abs (90 - Order.total_amount (order_with_total 95))) = true ∧
  create_order (order_with_total 95) empty_world
  = (Exc (HTTPException 400 "Invalid total amount"), empty_world).
Proof.
  split; [reflexivity|]. split; [reflexivity|].
  apply (create_order_rejects_mismatch (order_with_total 95) empty_world 90%float);
    reflexivity.
Defined.

(** C2: an order whose declared total is within 0.01 of the recomputed
    total [c] is persisted as submitted: the [order] collection gains one
    document with exactly the six fields of the order, holding the
    submitted buyer name, buyer email, payment method, status and total,
    and the submitted items in order, each with its product id, title,
    price, quantity and image; the handler returns the identifier of that
    document as [id], and no other collection changes.  When the store
    write fails, the handler raises status 500 with the failure message as
    detail and no document is added. *)
Theorem create_order_persists_verbatim (order : Order.t) (w : World) (c : float) :
  computed_total order = Val c →
  PrimFloat.ltb tolerance (abs (c - Order.total_amount order)) = false →
  match next_fault w with
  | None =>
      ∃ oid : N,
        (create_order order w).1 = Val (VDict {["id" := VStr (oid_str oid)]}) ∧
        docs_of (create_order order w).2 "order"
        = docs_of w "order"
          ++ [mk_doc oid
                (list_to_map
                   [("buyer_name", VStr (Order.buyer_name order));
                    ("buyer_email", VStr (Order.buyer_email order));
                    ("items",
                     VList
                       ((λ i,
                           VDict
                             (list_to_map
                                [("product_id", VStr (OrderItem.product_id i));
                                 ("title", VStr (OrderItem.title i));
                                 ("price", VFloat (OrderItem.price i));
                                 ("quantity", VInt (OrderItem.quantity i));
                                 ("image",
                                  match OrderItem.image i with
                                  | Some url => VStr url
                                  | None => VNone
                                  end)]))
                          <$> Order.items order));
                    ("payment_method", VStr (Order.payment_method order));
                    ("status", VStr (Order.status order));
                    ("total_amount", VFloat (Order.total_amount order))])] ∧
        (∀ coll, coll ≠ "order" →
                 docs_of (create_order order w).2 coll = docs_of w coll)
  | Some msg =>
      (create_order order w).1 = Exc (HTTPException 500 msg) ∧
      ∀ coll, docs_of (create_order order w).2 coll = docs_of w coll
  end.
Proof.
  intros Hc Hle. rewrite (create_order_checked order w c Hc).
  unfold total_mismatch. rewrite Hle.
  destruct (next_fault w) as [msg|] eqn:Hnf.
  - destruct (create_document_fail "order" (Order.model_dump order) w msg Hnf)
      as [He Hdocs].
    unfold_M. destruct (create_document _ _ w) as [[a|e|] w']; simpl in *;
      try discriminate.
    inversion He; subst. simpl. auto.
  - destruct (next_fault_None w Hnf) as (d & Hdb & _).
    destruct (create_document_ok "order" (Order.model_dump order) w d Hdb Hnf)
      as (d' & Hrun & Hcolls & _).
    exists (db_next_oid d). unfold_M. rewrite Hrun. cbn [fst snd].
    rewrite Order_model_dump_no_id in Hcolls.
    split; [reflexivity|]. split.
    + rewrite (docs_of_inserted w d d' _ "order" "order" _ Hdb Hcolls).
      by rewrite decide_True.
    + intros coll Hne.
      rewrite (docs_of_inserted w d d' _ "order" coll _ Hdb Hcolls).
      by rewrite decide_False.
Qed.

Lemma create_order_persists_verbatim_witness :
  computed_total (order_with_total 90) = Val 90%float ∧
  PrimFloat.ltb tolerance (abs (90 - Order.total_amount (order_with_total 90))) = false ∧
  match next_fault empty_world with
  | None =>
      ∃ oid : N,
        (create_order (order_with_total 90) empty_world).1 = Val (VDict {["id" := VStr (oid_str oid)]}) ∧
        docs_of (create_order (order_with_total 90) empty_world).2 "order"
        = docs_of empty_world "order"
          ++ [mk_doc oid
                (list_to_map
                   [("buyer_name", VStr (Order.buyer_name (order_with_total 90)));
                    ("buyer_email", VStr (Order.buyer_email (order_with_total 90)));
                    ("items",
                     VList
                       ((λ i,
                           VDict
                             (list_to_map
                                [("product_id", VStr (OrderItem.product_id i));
                                 ("title", VStr (OrderItem.title i));
                                 ("price", VFloat (OrderItem.price i));
                                 ("quantity", VInt (OrderItem.quantity i));
                                 ("image",
                                  match OrderItem.image i with
                                  | Some url => VStr url
                                  | None => VNone
                                  end)]))
                          <$> Order.items (order_with_total 90)));
                    ("payment_method", VStr (Order.payment_method (order_with_total 90)));
                    ("status", VStr (Order.status (order_with_total 90)));
                    ("total_amount", VFloat (Order.total_amount (order_with_total 90)))])] ∧
        (∀ coll, coll ≠ "order" →
                 docs_of (create_order (order_with_total 90) empty_world).2 coll = docs_of empty_world coll)
  | Some msg =>
      (create_order (order_with_total 90) empty_world).1 = Exc (HTTPException 500 msg) ∧
      ∀ coll, docs_of (create_order (order_with_total 90) empty_world).2 coll = docs_of empty_world coll
  end.
Proof.
  split; [reflexivity|]. split; [reflexivity|].
  apply (create_order_persists_verbatim (order_with_total 90) empty_world 90%float);
    reflexivity.
Defined.

(** ** Seeding *)

Lemma matches_empty (engine : regex_engine) (doc : dict) :
  matches engine ∅ doc = true.
Proof. unfold matches. apply bool_decide_eq_true. apply map_Forall_empty. Qed.

Lemma filter_errors_empty (engine : regex_engine) : filter_errors engine ∅ = [].
Proof. unfold filter_errors. by rewrite map_to_list_empty. Qed.

Lemma filter_matches_empty (engine : regex_engine) (docs : list dict) :
  List.filter (matches engine ∅) docs = docs.
Proof.
  induction docs as [|doc docs IH]; [reflexivity|].
  simpl. rewrite matches_empty. by rewrite IH.
Qed.

Lemma reliable_next_fault (w : World) : reliable w → next_fault w = None.
Proof.
  unfold reliable, next_fault. destruct (db w) as [d|]; [|contradiction].
  by intros ->.
Qed.

(** Inserting a list of documents one by one, on a reliable store, appends
    them in order to the collection and touches no other collection. *)
Lemma for_each_create_document (coll : string) (ps : list dict) :
  ∀ w : World,
    reliable w →
    ∃ (w' : World) (docs : list StoredDoc),
      for_each ps (λ p, discard (create_document coll p)) w = (Val tt, w') ∧
      reliable w' ∧
      (∀ c, docs_of w' c
            = if decide (c = coll) then docs_of w c ++ docs else docs_of w c) ∧
      doc_fields <$> docs = delete "_id" <$> ps.
Proof.
  induction ps as [|p ps IH]; intros w Hrel.
  - exists w, []. split; [reflexivity|]. split; [assumption|]. split; [|reflexivity].
    intros c. case_decide; by rewrite ?app_nil_r.
  - pose proof (reliable_next_fault w Hrel) as Hnf.
    destruct (next_fault_None w Hnf) as (d & Hdb & _).
    destruct (create_document_ok coll p w d Hdb Hnf)
      as (d1 & Hrun & Hcolls & _ & Hfaults & _).
    set (w1 := {| db := Some d1; calls := calls w ++ [call_create_document coll] |}) in *.
    assert (Hrel1 : reliable w1).
    { unfold reliable in *. simpl. rewrite Hdb in Hrel. by rewrite Hfaults, Hrel. }
    destruct (IH w1 Hrel1) as (w' & docs & Hrest & Hrel' & Hdocs & Hfields).
    exists w', (mk_doc (db_next_oid d) (delete "_id" p) :: docs).
    split; [|split; [assumption|split]].
    + simpl. unfold discard. unfold_M. rewrite Hrun. exact Hrest.
    + intros c. rewrite Hdocs. unfold w1.
      rewrite !(docs_of_inserted w d d1 _ coll _ _ Hdb Hcolls).
      case_decide as Heq.
      * subst c. by rewrite <- app_assoc.
      * reflexivity.
    + rewrite !fmap_cons. simpl. by rewrite Hfields.
Qed.

Lemma delete_id_all (ps : list dict) :
  Forall (λ p, p !! "_id" = None) ps → delete "_id" <$> ps = ps.
Proof.
  induction 1 as [|p ps Hp _ IH]; [reflexivity|].
  rewrite fmap_cons, IH. by rewrite delete_id.
Qed.

Lemma demo_products_have_no_id : delete "_id" <$> demo_products = demo_products.
Proof.
  apply delete_id_all. unfold demo_products.
  repeat (apply Forall_cons; split; [vm_compute; reflexivity|]). apply Forall_nil_2.
Qed.

(** What the one-document probe of [seed_products] returns. *)
Lemma probe_products (w : World) (d : Database) :
  db w = Some d →
  next_fault w = None →
  get_documents "product" ∅ 1 w
  = (Val (take 1 (to_dict <$> docs_of w "product")),
     {| db := Some (set_faults (tail (db_faults d)) d);
        calls := calls w ++ [call_get_documents "product"] |}).
Proof.
  intros Hdb Hnf. rewrite (get_documents_ok _ _ _ w d Hdb Hnf).
  by rewrite filter_errors_empty, filter_matches_empty.
Qed.

Lemma seed_products_nonempty (w : World) :
  docs_of w "product" ≠ [] →
  (∀ c, docs_of (seed_products w).2 c = docs_of w c) ∧
  (next_fault w = None →
   (seed_products w).1
   = Val (VDict (list_to_map [("status", VStr "ok");
                              ("message", VStr "Products already exist")]))).
Proof.
  intros Hne. unfold seed_products.
  destruct (next_fault w) as [msg|] eqn:Hnf.
  - destruct (get_documents_fail "product" ∅ 1 w msg Hnf) as [He Hdocs].
    split; [|discriminate]. unfold_M.
    destruct (get_documents _ _ _ w) as [[a|e|] w']; simpl in *; try discriminate.
    exact Hdocs.
  - destruct (next_fault_None w Hnf) as (d & Hdb & _).
    unfold_M. rewrite (probe_products w d Hdb Hnf).
    destruct (docs_of w "product") as [|doc docs] eqn:Hdocs; [done|].
    simpl. split; [|reflexivity].
    intros c. unfold docs_of in *. simpl. by rewrite Hdb.
Qed.

Lemma seed_products_empty (w : World) :
  reliable w →
  docs_of w "product" = [] →
  (seed_products w).1
  = Val (VDict (list_to_map [("status", VStr "ok"); ("inserted", VInt 5)])) ∧
  reliable (seed_products w).2 ∧
  doc_fields <$> docs_of (seed_products w).2 "product" = demo_products ∧
  (∀ c, c ≠ "product" → docs_of (seed_products w).2 c = docs_of w c).
Proof.
  intros Hrel Hempty.
  pose proof (reliable_next_fault w Hrel) as Hnf.
  destruct (next_fault_None w Hnf) as (d & Hdb & _).
  set (w1 := {| db := Some (set_faults (tail (db_faults d)) d);
                calls := calls w ++ [call_get_documents "product"] |}).
  assert (Hrel1 : reliable w1).
  { unfold reliable in *. simpl. rewrite Hdb in Hrel. by rewrite Hrel. }
  assert (Hsame : ∀ c, docs_of w1 c = docs_of w c).
  { intros c. unfold docs_of. simpl. by rewrite Hdb. }
  destruct (for_each_create_document "product" demo_products w1 Hrel1)
    as (w' & docs & Hrun & Hrel' & Hdocs & Hfields).
  assert (Heq : seed_products w
                = (Val (VDict (list_to_map [("status", VStr "ok"); ("inserted", VInt 5)])), w')).
  { unfold seed_products, try_except. unfold mbind at 1. unfold M_bind, bind.
    rewrite (probe_products w d Hdb Hnf), Hempty.
    cbn [fmap list_fmap take]. unfold mbind at 1. unfold M_bind, bind.
    fold w1. rewrite Hrun. reflexivity. }
  rewrite Heq. cbn [fst snd].
  split; [reflexivity|]. split; [assumption|]. split.
  - rewrite Hdocs, decide_True by reflexivity.
    rewrite Hsame, Hempty. rewrite app_nil_l.
    by rewrite Hfields, demo_products_have_no_id.
  - intros c Hc. by rewrite Hdocs, decide_False, Hsame.
Qed.


(** C3: seeding is idempotent over the product collection.  On a store
    whose operations succeed and whose product collection is empty it
    inserts the 5 demo products, in order and nowhere else, and reports
    [inserted: 5]; seeding again then reports "Products already exist" and
    leaves every collection as it is.  On a non-empty product collection
    it never changes a document, whatever the store does, and reports
    "Products already exist" when the one-document probe succeeds. *)
Theorem seed_products_idempotent (w : World) :
  (reliable w → docs_of w "product" = [] →
   (seed_products w).1
   = Val (VDict (list_to_map [("status", VStr "ok"); ("inserted", VInt 5)])) ∧
   doc_fields <$> docs_of (seed_products w).2 "product" = demo_products ∧
   length (docs_of (seed_products w).2 "product") = 5%nat ∧
   (∀ c, c ≠ "product" → docs_of (seed_products w).2 c = docs_of w c) ∧
   (seed_products (seed_products w).2).1
   = Val (VDict (list_to_map [("status", VStr "ok");
                              ("message", VStr "Products already exist")])) ∧
   (∀ c, docs_of (seed_products (seed_products w).2).2 c
         = docs_of (seed_products w).2 c)) ∧
  (docs_of w "product" ≠ [] →
   (∀ c, docs_of (seed_products w).2 c = docs_of w c) ∧
   (next_fault w = None →
    (seed_products w).1
    = Val (VDict (list_to_map [("status", VStr "ok");
                               ("message", VStr "Products already exist")])))).
Proof.
  split; [|apply seed_products_nonempty].
  intros Hrel Hempty.
  destruct (seed_products_empty w Hrel Hempty) as (Hres & Hrel' & Hfields & Hother).
  assert (Hlen : length (docs_of (seed_products w).2 "product") = 5%nat).
  { rewrite <- (length_fmap doc_fields), Hfields. reflexivity. }
  assert (Hne : docs_of (seed_products w).2 "product" ≠ []).
  { intros Hnil. rewrite Hnil in Hlen. discriminate. }
  destruct (seed_products_nonempty _ Hne) as [Hkeep Hagain].
  repeat split; try assumption.
  apply Hagain, reliable_next_fault, Hrel'.
Qed.

Lemma seed_products_idempotent_witness :
  (reliable empty_world ∧ docs_of empty_world "product" = [] ∧
   length (docs_of (seed_products empty_world).2 "product") = 5%nat) ∧
  (docs_of stocked_world "product" ≠ [] ∧
   ∀ c, docs_of (seed_products stocked_world).2 c = docs_of stocked_world c).
Proof.
  split.
  - split; [reflexivity|]. split; [reflexivity|].
    exact (proj1 (proj2 (proj2
             (proj1 (seed_products_idempotent empty_world) eq_refl eq_refl)))).
  - assert (Hne : docs_of stocked_world "product" ≠ []) by (vm_compute; discriminate).
    split; [exact Hne|].
    exact (proj1 (proj2 (seed_products_idempotent stocked_world) Hne)).
Defined.

(** ** Listing *)

Lemma matches_insert (engine : regex_engine) (filt : gmap string fval) (k : string)
    (fv : fval) (doc : dict) :
  filt !! k = None →
  matches engine (<[k := fv]> filt) doc
  = fval_holds engine k fv doc && matches engine filt doc.
Proof.
  intros Hk. unfold matches.
  destruct (fval_holds engine k fv doc) eqn:Hfv; simpl.
  - apply bool_decide_ext. rewrite map_Forall_insert by assumption. tauto.
  - apply bool_decide_eq_false. rewrite map_Forall_insert by assumption.
    intros [H _]. congruence.
Qed.


Lemma clause_holds_regex_i (engine : regex_engine) (field q : string) (doc : dict) :
  clause_holds engine (regex_i field q) doc
  = match engine q "i" with
    | inr test => field_test doc field test
    | inl _ => false
    end.
Proof.
  unfold clause_holds, regex_i.
  destruct (cond_holds engine (CRegex q "i") (doc !! field)) eqn:Hc.
  - rewrite bool_decide_eq_true_2 by (by apply map_Forall_singleton).
    revert Hc. unfold cond_holds, field_test.
    destruct (doc !! field) as [[]|]; destruct (engine q "i"); congruence.
  - rewrite bool_decide_eq_false_2
      by (rewrite map_Forall_singleton; congruence).
    revert Hc. unfold cond_holds, field_test.
    destruct (doc !! field) as [[]|]; destruct (engine q "i"); congruence.
Qed.




Lemma category_equality_holds (engine : regex_engine) (c : string) (doc : dict) :
  fval_holds engine "category" (FCond (CEq c)) doc = field_is doc "category" c.
Proof. unfold fval_holds, cond_holds, field_is. by destruct (doc !! "category") as [[]|]. Qed.

Lemma or_group_holds (engine : regex_engine) (k q : string) (doc : dict) :
  fval_holds engine k
    (FOr [regex_i "title" q; regex_i "description" q; regex_i "category" q]) doc
  = match engine q "i" with
    | inr test =>
        field_test doc "title" test || field_test doc "description" test
        || field_test doc "category" test
    | inl _ => false
    end.
Proof.
  unfold fval_holds. simpl. rewrite !clause_holds_regex_i.
  destruct (engine q "i"); [reflexivity|].
  by rewrite orb_false_r, orb_assoc.
Qed.

(** The filter [list_products] builds selects by category equality and by
    what the store's engine makes of [q]. *)
Lemma build_filter_selects (engine : regex_engine) (category q : option string)
    (doc : dict) :
  matches engine (build_filter category q) doc = engine_selects engine category q doc.
Proof.
  unfold build_filter, engine_selects.
  destruct category as [c|], q as [s|]; simpl;
    repeat match goal with
           | |- context [String.eqb ?x ""] => destruct (String.eqb x ""); simpl
           end;
    rewrite ?matches_insert by (by simplify_map_eq);
    rewrite ?matches_empty, ?category_equality_holds, ?or_group_holds,
      ?andb_true_r; try reflexivity.
  apply andb_comm.
Qed.





Lemma _serialize_stored (d : StoredDoc) : _serialize (to_dict d) = Val (public d).
Proof.
  unfold _serialize, to_dict, public. rewrite lookup_insert_eq. simpl.
  by rewrite delete_insert_eq.
Qed.

Lemma serialize_all_stored (docs : list StoredDoc) :
  serialize_all (to_dict <$> docs) = Val (public <$> docs).
Proof.
  induction docs as [|d docs IH]; [reflexivity|].
  rewrite !fmap_cons. simpl. by rewrite _serialize_stored, IH.
Qed.

Lemma filter_to_dict (p : dict → bool) (docs : list StoredDoc) :
  List.filter p (to_dict <$> docs) = to_dict <$> List.filter (λ d, p (to_dict d)) docs.
Proof.
  induction docs as [|d docs IH]; [reflexivity|].
  rewrite fmap_cons. simpl. destruct (p (to_dict d)); by rewrite IH.
Qed.

Lemma filter_ext_bool {A : Type} (p p' : A → bool) (l : list A) :
  (∀ x, p x = p' x) → List.filter p l = List.filter p' l.
Proof.
  intros Hpp. induction l as [|x l IH]; [reflexivity|].
  simpl. by rewrite Hpp, IH.
Qed.

(** A listing that meets no store failure and whose pattern the engine
    accepts returns the public form of the first [limit] selected
    products, in store order. *)
Lemma list_products_ok (category q : option string) (limit : Z) (w : World)
    (d : Database) :
  db w = Some d →
  next_fault w = None →
  filter_errors (db_regex d) (build_filter category q) = [] →
  (list_products category q limit w).1
  = Val (VList ((λ sd, VDict (public sd)) <$>
                  take (Z.to_nat limit)
                    (List.filter (λ sd, engine_selects (db_regex d) category q (to_dict sd))
                       (docs_of w "product")))).
Proof.
  intros Hdb Hnf Hvalid.
  unfold list_products, try_except. unfold mbind at 1. unfold M_bind, bind.
  rewrite (get_documents_ok _ _ _ w d Hdb Hnf), Hvalid.
  rewrite filter_to_dict, <- fmap_take.
  unfold mbind at 1. unfold M_bind, bind, lift.
  rewrite serialize_all_stored. simpl.
  rewrite (filter_ext_bool _ (λ sd, engine_selects (db_regex d) category q (to_dict sd)))
    by (intros; apply build_filter_selects).
  by rewrite <- list_fmap_compose.
Qed.

(** A pattern the engine refuses makes the listing a status 500 that
    carries the engine's refusal. *)
Lemma list_products_refused (category q : option string) (limit : Z) (w : World)
    (d : Database) (msg : string) (rest : list string) :
  db w = Some d →
  next_fault w = None →
  filter_errors (db_regex d) (build_filter category q) = msg :: rest →
  (list_products category q limit w).1 = Exc (HTTPException 500 msg).
Proof.
  intros Hdb Hnf Herr.
  unfold list_products, try_except. unfold mbind at 1. unfold M_bind, bind.
  by rewrite (get_documents_ok _ _ _ w d Hdb Hnf), Herr.
Qed.






(** The listing examples of the specification, on the seeded store. *)
Example list_maggi :
  listed_titles (list_products None (Some "maggi") default_limit seeded_world)
  = [Some (VStr "Maggi Bowl (Hot & Fresh)")].
Proof. vm_compute. reflexivity. Qed.

Example list_notes :
  listed_titles (list_products (Some "Notes") None default_limit seeded_world)
  = [Some (VStr "Data Structures Notes (PDF)")].
Proof. vm_compute. reflexivity. Qed.

(** C9: empty-string query parameters count as absent: [category=""]
    applies no category constraint and [q=""] applies no text constraint,
    so a request with both empty is served as one with both omitted. *)
Theorem list_products_empty_string_is_absent (category q : option string)
    (limit : Z) (w : World) :
  build_filter (Some "") q = build_filter None q ∧
  build_filter category (Some "") = build_filter category None ∧
  list_products (Some "") q limit w = list_products None q limit w ∧
  list_products category (Some "") limit w = list_products category None limit w ∧
  list_products (Some "") (Some "") limit w = list_products None None limit w ∧
  (∀ env, app env (GET_products (Some "") (Some "") (Some limit)) w
          = app env (GET_products None None (Some limit)) w) ∧
  (∀ engine doc, matches engine (build_filter (Some "") (Some "")) doc = true).
Proof. repeat split; reflexivity. Qed.

(** ** Product creation *)

(** The claim of C5 fails at a body whose title is the empty string: the
    schema accepts it, the handler runs and the product is persisted. *)
Lemma empty_title_is_accepted :
  Product.p_title untitled_payload = Some "" ∧
  (∃ product, Product.validate untitled_payload = inr product ∧
              Product.title product = "") ∧
  (app ∅ (POST_products untitled_payload) empty_world).1
  = Handled (Val (VDict {["id" := VStr "000000000000000000000000"]})) ∧
  (doc_fields <$> docs_of (app ∅ (POST_products untitled_payload) empty_world).2 "product")
    ≫= (λ f, [f !! "title"])
  = [Some (VStr "")].
Proof.
  split; [reflexivity|]. split; [eexists; split; reflexivity|].
  split; vm_compute; reflexivity.
Qed.

(** C5, amended: [title] is a required string and nothing more.  A body
    without a title is rejected with a schema-level error before the
    handler runs, leaving the state untouched; a body with any title, the
    empty one included, a price that is at least 0 and a category passes
    validation with its title unchanged. *)
Theorem product_title_required (body : Product.payload)
    (env : gmap string string) (w : World) :
  (Product.p_title body = None →
   ∃ errs, missing "title" ∈ errs ∧
           app env (POST_products body) w = (Unprocessable errs, w)) ∧
  (∀ (t : string) (pr : float) (c : string),
     Product.p_title body = Some t →
     Product.p_price body = Some pr →
     PrimFloat.leb 0 pr = true →
     Product.p_category body = Some c →
     ∃ product, Product.validate body = inr product ∧ Product.title product = t).
Proof.
  split.
  - intros Hnone. exists (Product.errors body). split.
    + unfold Product.errors. rewrite Hnone. simpl. apply list_elem_of_here.
    + simpl. unfold Product.validate, Product.errors. rewrite Hnone. reflexivity.
  - intros t pr c Ht Hp Hge Hc. unfold Product.validate, Product.errors.
    rewrite Ht, Hp, Hc. simpl. rewrite Hge. simpl. eexists. split; reflexivity.
Qed.

Lemma product_title_required_witness :
  (Product.p_title no_title_payload = None ∧
   ∃ errs, missing "title" ∈ errs ∧
           app ∅ (POST_products no_title_payload) empty_world
           = (Unprocessable errs, empty_world)) ∧
  (∃ product, Product.validate untitled_payload = inr product ∧
              Product.title product = "").
Proof.
  split.
  - split; [reflexivity|].
    exact (proj1 (product_title_required no_title_payload ∅ empty_world) eq_refl).
  - exact (proj2 (product_title_required untitled_payload ∅ empty_world)
             "" 10%float "Food" eq_refl eq_refl eq_refl eq_refl).
Defined.

(** ** Diagnostics *)

Lemma initial_response_collections :
  initial_response !! "collections" = Some (VList (VStr <$> [])).
Proof. reflexivity. Qed.

Lemma docs_of_same_db (w : World) (d : Database) (fs : list (option string))
    (cs : list call) (c : string) :
  db w = Some d →
  docs_of {| db := Some (set_faults fs d); calls := cs |} c = docs_of w c.
Proof. intros Hdb. unfold docs_of. simpl. by rewrite Hdb. Qed.

(** The outer [try] body always yields a response: a failing
    [list_collection_names] is folded into the [database] entry. *)
Lemma probe_initial (w : World) :
  ∃ (r : dict) (names : list string),
    (probe initial_response w).1 = Val r ∧
    (∀ c, docs_of (probe initial_response w).2 c = docs_of w c) ∧
    r !! "collections" = Some (VList (VStr <$> names)) ∧
    (length names ≤ 10)%nat ∧
    r !! "database" = Some (VStr (database_status w)).
Proof.
  unfold probe, database_status. destruct (db w) as [d|] eqn:Hdb.
  - unfold try_except, list_collection_names. unfold mbind, M_bind, bind, log.
    unfold round_trip. cbn [db calls]. rewrite Hdb.
    destruct (db_faults d) as [|[msg|] rest] eqn:Hf;
      unfold mret, M_ret, ret; cbn [tail collection_names fst snd str_exn];
      eexists _, _; (split; [reflexivity|]);
      (split; [intros c; by apply docs_of_same_db|]).
    + rewrite lookup_insert_ne, lookup_insert_eq by done.
      split; [reflexivity|]. split; [rewrite length_take; lia|].
      by rewrite lookup_insert_eq.
    + rewrite !lookup_insert_ne by done. rewrite initial_response_collections.
      split; [reflexivity|]. split; [simpl; lia|].
      by rewrite lookup_insert_eq.
    + rewrite lookup_insert_ne, lookup_insert_eq by done.
      split; [reflexivity|]. split; [rewrite length_take; lia|].
      by rewrite lookup_insert_eq.
  - eexists _, _. cbn [fst snd]. split; [reflexivity|]. split; [reflexivity|].
    rewrite !lookup_insert_ne by done. rewrite initial_response_collections.
    split; [reflexivity|]. split; [simpl; lia|].
    by rewrite lookup_insert_eq.
Qed.

Lemma test_database_runs (env : gmap string string) (w : World) :
  ∃ r : dict,
    (probe initial_response w).1 = Val r ∧
    test_database env w
    = (Val (VDict (<["database_name" := set_or_not (getenv env "DATABASE_NAME")]>
                     (<["database_url" := set_or_not (getenv env "DATABASE_URL")]> r))),
       (probe initial_response w).2).
Proof.
  destruct (probe_initial w) as (r & names & Hr & _).
  exists r. split; [assumption|].
  unfold test_database, try_except. unfold mbind, M_bind, bind.
  destruct (probe initial_response w) as [[a|e|] w']; simpl in Hr; try discriminate.
  by inversion Hr.
Qed.

(** C7: the diagnostics endpoint never fails.  Whatever the store state
    (no handle, a working connection, a failing operation) and whatever
    the environment, it returns a status object; a store failure shows
    only as text in the [database] entry; at most 10 collection names are
    included; no document is touched. *)
Theorem test_database_never_fails (env : gmap string string) (w : World) :
  ∃ (response : dict) (names : list string),
    (test_database env w).1 = Val (VDict response) ∧
    (app env GET_test w).1 = Handled (Val (VDict response)) ∧
    response !! "collections" = Some (VList (VStr <$> names)) ∧
    (length names ≤ 10)%nat ∧
    response !! "database" = Some (VStr (database_status w)) ∧
    (∀ c, docs_of (test_database env w).2 c = docs_of w c).
Proof.
  destruct (probe_initial w) as (r & names & Hr & Hdocs & Hcoll & Hlen & Hdb).
  destruct (test_database_runs env w) as (r' & Hr' & Hrun).
  rewrite Hr in Hr'. inversion Hr'; subst r'. clear Hr'.
  eexists _, names. unfold app, handled. rewrite Hrun. cbn [fst snd].
  split; [reflexivity|]. split; [reflexivity|].
  rewrite !lookup_insert_ne by done. auto.
Qed.

(** C10: the [database_url] and [database_name] entries of the
    diagnostics depend on the environment alone: each is "✅ Set" when
    the variable is set, that is when [os.getenv] gives a non-empty
    string, and "❌ Not Set" otherwise.  What the connection wrote there
    earlier is overwritten, so two runs that differ only in the store
    state [w], [w'] report the same two entries. *)
Theorem test_database_env_fields (env : gmap string string) (w w' : World) :
  response_field (test_database env w) "database_url"
  = Some (VStr (if truthy_str (getenv env "DATABASE_URL")
                then "✅ Set" else "❌ Not Set")) ∧
  response_field (test_database env w) "database_name"
  = Some (VStr (if truthy_str (getenv env "DATABASE_NAME")
                then "✅ Set" else "❌ Not Set")) ∧
  response_field (test_database env w) "database_url"
  = response_field (test_database env w') "database_url" ∧
  response_field (test_database env w) "database_name"
  = response_field (test_database env w') "database_name".
Proof.
  assert (H : ∀ v : World,
             response_field (test_database env v) "database_url"
             = Some (set_or_not (getenv env "DATABASE_URL")) ∧
             response_field (test_database env v) "database_name"
             = Some (set_or_not (getenv env "DATABASE_NAME"))).
  { intros v. destruct (test_database_runs env v) as (r & _ & Hrun).
    unfold response_field. rewrite Hrun. cbn [fst].
    split; [by rewrite lookup_insert_ne, lookup_insert_eq|by rewrite lookup_insert_eq]. }
  destruct (H w) as [Hu Hn]. destruct (H w') as [Hu' Hn'].
  rewrite Hu, Hn, Hu', Hn'. unfold set_or_not.
  repeat split; by destruct (truthy_str _).
Qed.

(** ** Serialization and the create-then-list round trip *)

Lemma oid_str_nonempty (n : N) : oid_str n ≠ "".
Proof. unfold oid_str. discriminate. Qed.

Lemma public_fields (d : StoredDoc) :
  public d !! "id" = Some (VStr (oid_str (doc_oid d))) ∧
  public d !! "_id" = None ∧
  (∀ k, k ≠ "id" → k ≠ "_id" → public d !! k = to_dict d !! k).
Proof.
  unfold public, to_dict. split; [by rewrite lookup_insert_eq|]. split.
  - by rewrite lookup_insert_ne, lookup_delete_eq.
  - intros k Hid Hoid. by rewrite !lookup_insert_ne, lookup_delete_ne.
Qed.

Lemma create_product_ok (product : Product.t) (w : World) (d : Database) :
  db w = Some d →
  next_fault w = None →
  ∃ d', create_product product w
        = (Val (VDict {["id" := VStr (oid_str (db_next_oid d))]}),
           {| db := Some d'; calls := calls w ++ [call_create_document "product"] |}) ∧
        db_colls d'
        = <["product" := default [] (db_colls d !! "product")
                         ++ [mk_doc (db_next_oid d) (Product.model_dump product)]]>
            (db_colls d) ∧
        db_faults d' = tail (db_faults d).
Proof.
  intros Hdb Hnf.
  destruct (create_document_ok "product" (Product.model_dump product) w d Hdb Hnf)
    as (d' & Hrun & Hcolls & _ & Hfaults & _).
  exists d'. rewrite Product_model_dump_no_id in Hcolls.
  split; [|split; assumption].
  unfold create_product, try_except. unfold mbind, M_bind, bind.
  by rewrite Hrun.
Qed.

Lemma filter_all {A : Type} (p : A → bool) (l : list A) :
  (∀ x, p x = true) → List.filter p l = l.
Proof.
  intros Hp. induction l as [|x l IH]; [reflexivity|].
  simpl. by rewrite Hp, IH.
Qed.

Lemma created_product_is_listed (product : Product.t) (limit : Z) (w : World) :
  reliable w →
  (length (docs_of w "product") < Z.to_nat limit)%nat →
  ∃ (i : string) (listed : list value) (doc : dict),
    (create_product product w).1 = Val (VDict {["id" := VStr i]}) ∧
    i ≠ "" ∧
    (list_products None None limit (create_product product w).2).1
    = Val (VList listed) ∧
    VDict doc ∈ listed ∧
    doc !! "id" = Some (VStr i) ∧
    delete "id" doc = Product.model_dump product.
Proof.
  intros Hrel Hlen.
  pose proof (reliable_next_fault w Hrel) as Hnf.
  destruct (next_fault_None w Hnf) as (d & Hdb & _).
  destruct (create_product_ok product w d Hdb Hnf) as (d' & Hrun & Hcolls & Hfaults).
  set (new := mk_doc (db_next_oid d) (Product.model_dump product)) in *.
  set (w1 := {| db := Some d'; calls := calls w ++ [call_create_document "product"] |}) in *.
  assert (Hnf1 : next_fault w1 = None).
  { apply reliable_next_fault. unfold reliable in *. simpl.
    rewrite Hdb in Hrel. by rewrite Hfaults, Hrel. }
  assert (Hdocs : docs_of w1 "product" = docs_of w "product" ++ [new]).
  { unfold w1. rewrite (docs_of_inserted w d d' _ "product" "product" _ Hdb Hcolls).
    by rewrite decide_True. }
  rewrite Hrun. cbn [fst snd].
  eexists (oid_str (db_next_oid d)), _, (public new).
  split; [reflexivity|]. split; [apply oid_str_nonempty|].
  split; [by apply list_products_ok|].
  split; [|split].
  - apply (list_elem_of_fmap_2 (λ d0, VDict (public d0))).
    rewrite filter_all by reflexivity.
    rewrite take_ge by (rewrite Hdocs, length_app; simpl; lia).
    rewrite Hdocs. apply elem_of_app. right. apply list_elem_of_here.
  - apply public_fields.
  - unfold public, new. cbn [doc_fields].
    rewrite delete_insert_eq, Product_model_dump_no_id.
    apply delete_id. reflexivity.
Qed.

(** C6 as it reads fails in two ways.  The round trip fails once the
    listing is cut short: on a store that already holds 50 products, the
    product just created is not among the 50 documents the default listing
    returns (a limit of 51 shows it).  And serialization does not leave
    every other field as it was: a stored document that has a field named
    [id] of its own loses it to the stringified identifier. *)
Lemma created_product_beyond_limit_not_listed :
  length (docs_of crowded_world "product") = 50%nat ∧
  (create_product hoodie_product crowded_world).1
  = Val (VDict {["id" := VStr (oid_str 50)]}) ∧
  lists_id (oid_str 50)
    (list_products None None default_limit
       (create_product hoodie_product crowded_world).2) = false ∧
  lists_id (oid_str 50)
    (list_products None None 51
       (create_product hoodie_product crowded_world).2) = true ∧
  to_dict (mk_doc 7 {["id" := VStr "mine"]}) !! "id" = Some (VStr "mine") ∧
  ∃ out,
    _serialize (to_dict (mk_doc 7 {["id" := VStr "mine"]})) = Val out ∧
    out !! "id" = Some (VStr "000000000000000000000007").
Proof.
  split; [vm_compute; reflexivity|]. split; [vm_compute; reflexivity|].
  split; [vm_compute; reflexivity|]. split; [vm_compute; reflexivity|].
  split; [vm_compute; reflexivity|].
  eexists. split; [apply _serialize_stored|].
  vm_compute. reflexivity.
Qed.

(** C6, amended: serializing a stored document drops [_id], sets the
    string field [id] to the stringified identifier, which is not empty
    (a field named [id] that the document had is replaced), and leaves
    every field other than [id] as it was stored.  Hence, on a store whose
    operations succeed, creating a product and then listing without
    filters returns a document with the new non-empty [id] and otherwise
    exactly the seven submitted fields, as long as [limit] exceeds the
    number of products stored before. *)
Theorem serialize_round_trip (product : Product.t) (limit : Z) (w : World) :
  (∀ d : StoredDoc,
     _serialize (to_dict d) = Val (public d) ∧
     oid_str (doc_oid d) ≠ "" ∧
     public d !! "id" = Some (VStr (oid_str (doc_oid d))) ∧
     public d !! "_id" = None ∧
     (∀ k, k ≠ "id" → k ≠ "_id" → public d !! k = to_dict d !! k)) ∧
  (reliable w →
   (length (docs_of w "product") < Z.to_nat limit)%nat →
   ∃ (i : string) (listed : list value) (doc : dict),
     (create_product product w).1 = Val (VDict {["id" := VStr i]}) ∧
     i ≠ "" ∧
     (list_products None None limit (create_product product w).2).1
     = Val (VList listed) ∧
     VDict doc ∈ listed ∧
     doc !! "id" = Some (VStr i) ∧
     delete "id" doc
     = list_to_map
         [("title", VStr (Product.title product));
          ("description",
           match Product.description product with Some s => VStr s | None => VNone end);
          ("price", VFloat (Product.price product));
          ("category", VStr (Product.category product));
          ("in_stock", VBool (Product.in_stock product));
          ("image",
           match Product.image product with Some s => VStr s | None => VNone end);
          ("seller_name",
           match Product.seller_name product with Some s => VStr s | None => VNone end)]).
Proof.
  split.
  - intros d. split; [apply _serialize_stored|].
    split; [apply oid_str_nonempty|]. apply public_fields.
  - exact (created_product_is_listed product limit w).
Qed.

Lemma serialize_round_trip_witness :
  reliable empty_world ∧
  (length (docs_of empty_world "product") < Z.to_nat default_limit)%nat ∧
  ∃ (i : string) (listed : list value) (doc : dict),
    (create_product hoodie_product empty_world).1 = Val (VDict {["id" := VStr i]}) ∧
    i ≠ "" ∧
    (list_products None None default_limit
       (create_product hoodie_product empty_world).2).1
    = Val (VList listed) ∧
    VDict doc ∈ listed ∧
    doc !! "id" = Some (VStr i) ∧
    delete "id" doc
    = list_to_map
        [("title", VStr "College Hoodie (Navy)");
         ("description", VStr "Official club merchandise. Sizes S-XL.");
         ("price", VFloat 999);
         ("category", VStr "Merch");
         ("in_stock", VBool true);
         ("image", VNone);
         ("seller_name", VStr "Design Club")].
Proof.
  assert (Hlen : (length (docs_of empty_world "product") < Z.to_nat default_limit)%nat)
    by (vm_compute; lia).
  split; [reflexivity|]. split; [exact Hlen|].
  exact (proj2 (serialize_round_trip hoodie_product default_limit empty_world)
           eq_refl Hlen).
Defined.

(** ** Lifecycle *)

Create HintDb keeps discriminated.

Lemma keeps_ret {A : Type} (a : A) : keeps_documents (ret a).
Proof. intros w c. reflexivity. Qed.

Lemma keeps_raise {A : Type} (e : exn) : keeps_documents (@raise A e).
Proof. intros w c. reflexivity. Qed.

Lemma keeps_lift {A : Type} (o : outcome A) : keeps_documents (lift o).
Proof. intros w c. reflexivity. Qed.

Lemma keeps_log (cl : call) : keeps_documents (log cl).
Proof. intros w c. reflexivity. Qed.

Lemma keeps_bind {A B : Type} (m : M A) (k : A → M B) :
  keeps_documents m → (∀ a, keeps_documents (k a)) → keeps_documents (bind m k).
Proof.
  intros Hm Hk w c. specialize (Hm w c). unfold bind.
  destruct (m w) as [[a|e|] w1]; simpl in *; try assumption.
  etrans; [exact Hm|apply Hk].
Qed.

Lemma keeps_try_except {A : Type} (body : M A) (handler : exn → M A) :
  keeps_documents body → (∀ e, keeps_documents (handler e)) →
  keeps_documents (try_except body handler).
Proof.
  intros Hb Hh w c. specialize (Hb w c). unfold try_except.
  destruct (body w) as [[a|e|] w1]; simpl in *; try assumption.
  etrans; [exact Hb|apply Hh].
Qed.

(** A round trip keeps the documents when the store operation does. *)
Lemma keeps_round_trip {A : Type} (op : Database → A * Database) :
  (∀ d c, default [] (db_colls d !! c)
          `prefix_of` default [] (db_colls (op d).2 !! c)) →
  keeps_documents (round_trip op).
Proof.
  intros Hop w c. unfold round_trip, docs_of.
  destruct (db w) as [d|] eqn:Hdb; [|simpl; by rewrite Hdb].
  destruct (db_faults d) as [|[msg|] rest]; simpl;
    try reflexivity;
    match goal with
    | |- context [op ?x] =>
        specialize (Hop x c); destruct (op x) as [a d1]; exact Hop
    end.
Qed.

Lemma insert_one_appends (coll : string) (data : dict) (d : Database) (c : string) :
  default [] (db_colls d !! c)
  `prefix_of` default [] (db_colls (insert_one coll data d).2 !! c).
Proof.
  simpl. destruct (decide (c = coll)) as [->|Hne].
  - rewrite lookup_insert_eq. simpl. by apply prefix_app_r.
  - by rewrite lookup_insert_ne.
Qed.

Lemma keeps_create_document (coll : string) (data : dict) :
  keeps_documents (create_document coll data).
Proof.
  unfold create_document. apply keeps_bind; [apply keeps_log|]. intros _.
  apply keeps_bind; [|intros; apply keeps_ret].
  apply keeps_round_trip, insert_one_appends.
Qed.

Lemma keeps_get_documents (coll : string) (filt : gmap string fval) (limit : Z) :
  keeps_documents (get_documents coll filt limit).
Proof.
  unfold get_documents. apply keeps_bind; [apply keeps_log|]. intros _.
  apply keeps_bind; [|intros; apply keeps_lift].
  apply keeps_round_trip. reflexivity.
Qed.

Lemma keeps_list_collection_names : keeps_documents list_collection_names.
Proof.
  unfold list_collection_names. apply keeps_bind; [apply keeps_log|]. intros _.
  apply keeps_round_trip. reflexivity.
Qed.

Lemma keeps_for_each {A : Type} (l : list A) (body : A → M unit) :
  (∀ x, keeps_documents (body x)) → keeps_documents (for_each l body).
Proof.
  intros Hbody. induction l as [|x l IH]; [apply keeps_ret|].
  simpl. apply keeps_bind; [apply Hbody|]. intros _. exact IH.
Qed.

#[local] Hint Resolve keeps_ret keeps_raise keeps_lift keeps_log
  keeps_create_document keeps_get_documents keeps_list_collection_names : keeps.

Ltac keeps :=
  unfold mbind, mret, M_bind, M_ret, discard;
  repeat first
    [ solve [eauto with keeps]
    | apply keeps_try_except
    | apply keeps_bind
    | apply keeps_for_each
    | progress intros ].

Lemma keeps_create_product (product : Product.t) :
  keeps_documents (create_product product).
Proof. unfold create_product. keeps. Qed.

Lemma keeps_list_products (category q : option string) (limit : Z) :
  keeps_documents (list_products category q limit).
Proof. unfold list_products. keeps. Qed.

Lemma keeps_seed_products : keeps_documents seed_products.
Proof.
  unfold seed_products. apply keeps_try_except; [|keeps].
  apply keeps_bind; [keeps|]. intros [|doc docs]; [|apply keeps_ret].
  unfold discard. keeps.
Qed.

Lemma keeps_create_order (order : Order.t) : keeps_documents (create_order order).
Proof.
  unfold create_order. apply keeps_bind; [keeps|]. intros computed.
  destruct (total_mismatch computed order); keeps.
Qed.

Lemma keeps_probe (response : dict) : keeps_documents (probe response).
Proof.
  intros w c. unfold probe. destruct (db w) as [d|] eqn:Hdb; [|reflexivity].
  revert w c Hdb.
  match goal with
  | |- ∀ w c, _ → _ `prefix_of` docs_of (?m w).2 c =>
      assert (Hm : keeps_documents m) by keeps
  end.
  intros w c _. apply Hm.
Qed.

Lemma keeps_test_database (env : gmap string string) :
  keeps_documents (test_database env).
Proof. unfold test_database. pose proof keeps_probe. keeps. Qed.

(** Every request keeps the documents. *)
Lemma app_keeps_documents (env : gmap string string) (req : request)
    (w : World) (c : string) :
  docs_of w c `prefix_of` docs_of (app env req w).2 c.
Proof.
  assert (Hh : ∀ m : M value, keeps_documents m →
                docs_of w c `prefix_of` docs_of (handled m w).2 c).
  { intros m Hm. specialize (Hm w c). unfold handled.
    by destruct (m w) as [o w1]. }
  destruct req as [|body|category q limit| |body|]; unfold app.
  - apply Hh. unfold read_root. keeps.
  - destruct (Product.validate body); [reflexivity|].
    apply Hh, keeps_create_product.
  - apply Hh, keeps_list_products.
  - apply Hh, keeps_seed_products.
  - destruct (Order.validate body); [reflexivity|].
    apply Hh, keeps_create_order.
  - apply Hh, keeps_test_database.
Qed.

(** C8: over every sequence of requests, documents are only ever added.
    Each collection of the store the sequence ends in begins with the
    documents it held at the start, with the same identifiers and fields
    and in the same places: no handler updates or deletes a document. *)
Theorem documents_are_never_changed (env : gmap string string)
    (reqs : list request) (w : World) (c : string) :
  docs_of w c `prefix_of` docs_of (run env reqs w) c.
Proof.
  revert w. induction reqs as [|req reqs IH]; intros w; [reflexivity|].
  simpl. etrans; [apply app_keeps_documents|apply IH].
Qed.

(** ** Store failures and further examples *)

(** A listing whose query fails raises status 500 with the failure
    message as detail, and no document changes. *)
Lemma list_products_fail (category q : option string) (limit : Z) (w : World)
    (msg : string) :
  next_fault w = Some msg →
  (list_products category q limit w).1 = Exc (HTTPException 500 msg) ∧
  ∀ c, docs_of (list_products category q limit w).2 c = docs_of w c.
Proof.
  intros Hnf.
  destruct (get_documents_fail "product" (build_filter category q) limit w msg Hnf)
    as [He Hdocs].
  unfold list_products. unfold_M.
  destruct (get_documents _ _ _ w) as [[a|e|] w1]; simpl in *; try discriminate.
  inversion He; subst. split; [reflexivity|exact Hdocs].
Qed.

(** A product creation whose write fails raises status 500 likewise. *)
Lemma create_product_fail (product : Product.t) (w : World) (msg : string) :
  next_fault w = Some msg →
  (create_product product w).1 = Exc (HTTPException 500 msg) ∧
  ∀ c, docs_of (create_product product w).2 c = docs_of w c.
Proof.
  intros Hnf.
  destruct (create_document_fail "product" (Product.model_dump product) w msg Hnf)
    as [He Hdocs].
  unfold create_product. unfold_M.
  destruct (create_document _ _ w) as [[a|e|] w1]; simpl in *; try discriminate.
  inversion He; subst. split; [reflexivity|exact Hdocs].
Qed.

(** The order examples of the specification: 2 x 45 with a declared total
    of 90 is accepted, with 95 it is refused. *)
Example order_total_90 :
  (create_order (order_with_total 90) empty_world).1
  = Val (VDict {["id" := VStr "000000000000000000000000"]}).
Proof. vm_compute. reflexivity. Qed.

Example order_total_95 :
  (create_order (order_with_total 95) empty_world).1
  = Exc (HTTPException 400 "Invalid total amount").
Proof. vm_compute. reflexivity. Qed.

Example order_on_failing_store :
  (create_order (order_with_total 90) failing_world).1
  = Exc (HTTPException 500 "connection reset").
Proof. vm_compute. reflexivity. Qed.

Example order_without_store :
  (create_order (order_with_total 90) no_db_world).1
  = Exc (HTTPException 500 "Database not available").
Proof. vm_compute. reflexivity. Qed.

(** The recomputation of the total sits outside the handler's [try]: a
    quantity beyond the float range ends the request with the
    [OverflowError] itself, before the store is reached. *)
Example order_quantity_overflow :
  create_order oversized_order empty_world
  = (Exc (OverflowError "int too large to convert to float"), empty_world).
Proof. vm_compute. reflexivity. Qed.

Example diagnostics_without_store :
  response_field (test_database ∅ no_db_world) "database"
  = Some (VStr "⚠️  Available but not initialized").
Proof. vm_compute. reflexivity. Qed.

Example diagnostics_on_failing_store :
  response_field (test_database ∅ failing_world) "database"
  = Some (VStr "⚠️  Connected but Error: connection reset").
Proof. vm_compute. reflexivity. Qed.

Example diagnostics_on_seeded_store :
  response_field (test_database {["DATABASE_URL" := "mongodb://localhost"]} seeded_world)
    "collections"
  = Some (VList [VStr "product"]) ∧
  response_field (test_database {["DATABASE_URL" := "mongodb://localhost"]} seeded_world)
    "database_url"
  = Some (VStr "✅ Set") ∧
  response_field (test_database {["DATABASE_URL" := "mongodb://localhost"]} seeded_world)
    "database_name"
  = Some (VStr "❌ Not Set").
Proof. repeat split; vm_compute; reflexivity. Qed.

(** * Further properties *)

(** ** [_serialize] on arbitrary dictionaries *)



(** X2: serializing is idempotent: what [_serialize] returned serializes
    to itself. *)
Theorem serialize_idempotent (doc out : dict) :
  _serialize doc = Val out → _serialize out = Val out.
Proof.
  intros Hrun. pose proof Hrun as Hrun'. unfold _serialize in Hrun'.
  destruct (doc !! "_id") as [v|] eqn:Hid.
  - destruct (truthy v) eqn:Htruthy.
    + destruct (py_str v) as [s|]; [|discriminate].
      inversion Hrun'; subst out. unfold _serialize at 1.
      by rewrite lookup_insert_ne, lookup_delete_eq.
    + inversion Hrun'; subst out. exact Hrun.
  - inversion Hrun'; subst out. exact Hrun.
Qed.

Lemma serialize_idempotent_witness :
  _serialize (public (mk_doc 7 {["title" := VStr "Notes"]}))
  = Val (public (mk_doc 7 {["title" := VStr "Notes"]})).
Proof.
  apply (serialize_idempotent (to_dict (mk_doc 7 {["title" := VStr "Notes"]}))).
  apply _serialize_stored.
Defined.

(** ** What the handlers let through *)

Lemma yields_ret {A : Type} (P : A → Prop) (a : A) : P a → yields P (ret a).
Proof. intros Ha w. exact Ha. Qed.

Lemma yields_raise {A : Type} (P : A → Prop) (e : exn) : yields P (@raise A e).
Proof. intros w. exact I. Qed.

Lemma yields_bind {A B : Type} (P : A → Prop) (Q : B → Prop) (m : M A) (k : A → M B) :
  yields P m → (∀ a, P a → yields Q (k a)) → yields Q (bind m k).
Proof.
  intros Hm Hk w. specialize (Hm w). unfold bind.
  destruct (m w) as [[a|e|] w1]; simpl in *; [|exact I|contradiction].
  apply (Hk a Hm).
Qed.

Lemma yields_weaken {A : Type} (P Q : A → Prop) (m : M A) :
  (∀ a, P a → Q a) → yields P m → yields Q m.
Proof.
  intros HPQ Hm w. specialize (Hm w).
  destruct ((m w).1); [apply HPQ, Hm|exact I|contradiction].
Qed.

Lemma yields_log (cl : call) : yields (λ _, True) (log cl).
Proof. intros w. exact I. Qed.

(** A round trip returns what the store operation returns, or raises. *)
Lemma yields_round_trip {A : Type} (P : A → Prop) (op : Database → A * Database) :
  (∀ d, P (op d).1) → yields P (round_trip op).
Proof.
  intros Hop w. unfold round_trip.
  destruct (db w) as [d|]; [|exact I].
  destruct (db_faults d) as [|[msg|] rest]; simpl;
    try exact I;
    match goal with
    | |- context [op ?x] => specialize (Hop x); by destruct (op x)
    end.
Qed.

Lemma yields_create_document (coll : string) (data : dict) :
  yields (λ _, True) (create_document coll data).
Proof.
  unfold create_document. apply (yields_bind (λ _, True)); [apply yields_log|].
  intros _ _. apply (yields_bind (λ _, True)).
  - by apply yields_round_trip.
  - intros oid _. by apply yields_ret.
Qed.

(** Every dictionary a query returns is a stored document with its
    identifier. *)
Lemma yields_get_documents (coll : string) (filt : gmap string fval) (limit : Z) :
  yields (λ docs, ∃ sds : list StoredDoc, docs = to_dict <$> sds)
    (get_documents coll filt limit).
Proof.
  unfold get_documents. apply (yields_bind (λ _, True)); [apply yields_log|].
  intros _ _.
  apply (yields_bind
           (λ r, match r with
                 | Val docs => ∃ sds : list StoredDoc, docs = to_dict <$> sds
                 | Exc _ => True
                 | Stuck => False
                 end)).
  - apply yields_round_trip. intros d. simpl.
    destruct (filter_errors (db_regex d) filt); [|exact I].
    rewrite filter_to_dict, <- fmap_take. by eexists.
  - intros r Hr w. exact Hr.
Qed.

Lemma yields_for_each {A : Type} (l : list A) (body : A → M unit) :
  (∀ x, yields (λ _, True) (body x)) → yields (λ _, True) (for_each l body).
Proof.
  intros Hbody. induction l as [|x l IH]; [by apply yields_ret|].
  simpl. apply (yields_bind (λ _, True)); [apply Hbody|]. intros _ _. exact IH.
Qed.

(** [try: body except Exception as e: raise HTTPException(500, str(e))]
    lets through a value or a status 500, nothing else. *)
Lemma guarded_answered (body : M value) (w : World) :
  yields (λ _, True) body →
  answered (try_except body (λ e, raise (HTTPException 500 (str_exn e))) w).1.
Proof.
  intros Hbody. specialize (Hbody w). unfold try_except.
  destruct (body w) as [[a|e|] w1]; simpl in *; [exact I|exact I|contradiction].
Qed.

(** X3: [create_product], [list_products] and [seed_products] answer every
    call, whatever the store does, with a value or with status 500: no
    other exception leaves them. *)
Theorem guarded_handlers_answer (product : Product.t) (category q : option string)
    (limit : Z) (w : World) :
  answered (create_product product w).1 ∧
  answered (list_products category q limit w).1 ∧
  answered (seed_products w).1.
Proof.
  split; [|split].
  - unfold create_product. apply guarded_answered.
    unfold mbind, mret, M_bind, M_ret.
    apply (yields_bind (λ _, True)); [apply yields_create_document|].
    intros i _. by apply yields_ret.
  - unfold list_products. apply guarded_answered.
    unfold mbind, mret, M_bind, M_ret.
    eapply yields_bind; [apply yields_get_documents|].
    intros docs [sds ->]. intros w1. unfold bind, lift.
    rewrite serialize_all_stored. exact I.
  - unfold seed_products. apply guarded_answered.
    unfold mbind, mret, M_bind, M_ret.
    apply (yields_bind (λ _, True)).
    + eapply yields_weaken; [|apply yields_get_documents]. done.
    + intros [|doc docs] _; [|by apply yields_ret].
      apply (yields_bind (λ _, True)); [|intros; by apply yields_ret].
      apply yields_for_each. intros p. unfold discard.
      apply (yields_bind (λ _, True)); [apply yields_create_document|].
      intros; by apply yields_ret.
Qed.

(** ** Orders: what can leave [create_order] *)

Lemma float_of_int_cases (z : Z) :
  (∃ f, float_of_int z = Val f) ∨
  float_of_int z = Exc (OverflowError "int too large to convert to float").
Proof.
  unfold float_of_int.
  destruct (binary_normalize prec emax z 0 false); eauto.
Qed.

Lemma py_sum_cases (items : list OrderItem.t) :
  ∀ acc, (∃ c, py_sum acc items = Val c) ∨
         py_sum acc items = Exc (OverflowError "int too large to convert to float").
Proof.
  induction items as [|item items IH]; intros acc; simpl; [eauto|].
  unfold line_total.
  destruct (float_of_int_cases (OrderItem.quantity item)) as [[f ->]| ->]; [|by right].
  apply IH.
Qed.

(** X4: the total is recomputed outside the handler's [try].  When the
    recomputation raises, which only the conversion of a quantity to float
    can make it do, that [OverflowError] leaves the handler as it is,
    neither a 400 nor a 500 of the handler's making, and the store has not
    been called. *)
Theorem create_order_total_error_escapes (order : Order.t) (w : World) (e : exn) :
  computed_total order = Exc e →
  e = OverflowError "int too large to convert to float" ∧
  create_order order w = (Exc e, w).
Proof.
  intros He. split.
  - unfold computed_total in He.
    destruct (py_sum_cases (Order.items order) 0%float) as [[c Hc]|Hc];
      rewrite Hc in He; [discriminate|by inversion He].
  - unfold create_order. unfold mbind at 1. unfold M_bind, bind, lift.
    by rewrite He.
Qed.

Lemma create_order_total_error_escapes_witness :
  computed_total oversized_order
  = Exc (OverflowError "int too large to convert to float") ∧
  create_order oversized_order empty_world
  = (Exc (OverflowError "int too large to convert to float"), empty_world).
Proof.
  assert (He : computed_total oversized_order
               = Exc (OverflowError "int too large to convert to float"))
    by (vm_compute; reflexivity).
  split; [exact He|].
  exact (proj2 (create_order_total_error_escapes oversized_order empty_world _ He)).
Defined.

(** X5: the ways [create_order] can end, for every order and store state:
    with [{id}]; with status 400 "Invalid total amount", the state
    unchanged; with status 500; or with the [OverflowError] of the
    recomputation, the state unchanged.  Nothing else leaves it. *)
Theorem create_order_outcomes (order : Order.t) (w : World) :
  match (create_order order w).1 with
  | Val body => ∃ oid, body = VDict {["id" := VStr (oid_str oid)]}
  | Exc (HTTPException status detail) =>
      (status = 400 ∧ detail = "Invalid total amount" ∧ (create_order order w).2 = w)
      ∨ (status = 500 ∧ next_fault w = Some detail)
  | Exc (OverflowError msg) =>
      computed_total order = Exc (OverflowError msg) ∧ (create_order order w).2 = w
  | Exc (Exception _) => False
  | Stuck => False
  end.
Proof.
  unfold computed_total.
  destruct (py_sum_cases (Order.items order) 0%float) as [[c Hc]|Hc].
  - rewrite (create_order_checked order w c Hc).
    destruct (total_mismatch c order); [simpl; by left|].
    destruct (next_fault w) as [msg|] eqn:Hnf.
    + destruct (create_document_fail "order" (Order.model_dump order) w msg Hnf)
        as [He _].
      unfold_M. destruct (create_document _ _ w) as [[a|e|] w1]; simpl in *;
        try discriminate.
      inversion He; subst. simpl. by right.
    + destruct (next_fault_None w Hnf) as (d & Hdb & _).
      destruct (create_document_ok "order" (Order.model_dump order) w d Hdb Hnf)
        as (d' & Hrun & _).
      unfold_M. rewrite Hrun. simpl. by eexists.
  - unfold create_order. unfold mbind at 1. unfold M_bind, bind, lift.
    unfold computed_total. rewrite Hc. simpl. done.
Qed.

(** ** Products: creation and listing *)

(** X6: [create_product] appends exactly one document to [product],
    holding the seven fields of the submitted product, absent optional
    ones as [None], under the identifier the store assigns, and returns
    that identifier as [id]; no other collection changes.  When the write
    fails it raises status 500 with the failure message and adds nothing. *)
Theorem create_product_persists (product : Product.t) (w : World) :
  match next_fault w with
  | None =>
      ∃ oid : N,
        (create_product product w).1 = Val (VDict {["id" := VStr (oid_str oid)]}) ∧
        docs_of (create_product product w).2 "product"
        = docs_of w "product"
          ++ [mk_doc oid
                (list_to_map
                   [("title", VStr (Product.title product));
                    ("description",
                     match Product.description product with
                     | Some s => VStr s
                     | None => VNone
                     end);
                    ("price", VFloat (Product.price product));
                    ("category", VStr (Product.category product));
                    ("in_stock", VBool (Product.in_stock product));
                    ("image",
                     match Product.image product with
                     | Some s => VStr s
                     | None => VNone
                     end);
                    ("seller_name",
                     match Product.seller_name product with
                     | Some s => VStr s
                     | None => VNone
                     end)])] ∧
        (∀ c, c ≠ "product" → docs_of (create_product product w).2 c = docs_of w c)
  | Some msg =>
      (create_product product w).1 = Exc (HTTPException 500 msg) ∧
      ∀ c, docs_of (create_product product w).2 c = docs_of w c
  end.
Proof.
  destruct (next_fault w) as [msg|] eqn:Hnf; [by apply create_product_fail|].
  destruct (next_fault_None w Hnf) as (d & Hdb & _).
  destruct (create_product_ok product w d Hdb Hnf) as (d' & Hrun & Hcolls & _).
  exists (db_next_oid d). rewrite Hrun. cbn [fst snd].
  split; [reflexivity|]. split.
  - rewrite (docs_of_inserted w d d' _ "product" "product" _ Hdb Hcolls).
    by rewrite decide_True.
  - intros c Hc. rewrite (docs_of_inserted w d d' _ "product" c _ Hdb Hcolls).
    by rewrite decide_False.
Qed.

Lemma list_products_keeps_all (category q : option string) (limit : Z) (w : World) :
  ∀ c, docs_of (list_products category q limit w).2 c = docs_of w c.
Proof.
  intros c. destruct (next_fault w) as [msg|] eqn:Hnf.
  - exact (proj2 (list_products_fail category q limit w msg Hnf) c).
  - destruct (next_fault_None w Hnf) as (d & Hdb & _).
    unfold list_products. unfold_M.
    rewrite (get_documents_ok _ _ _ w d Hdb Hnf).
    destruct (filter_errors (db_regex d) (build_filter category q)).
    + rewrite filter_to_dict, <- fmap_take, serialize_all_stored. simpl.
      by apply docs_of_same_db.
    + simpl. by apply docs_of_same_db.
Qed.

(** X7: listing is read-only and its documents are public ones: no
    collection changes, whether the query succeeds, fails or is refused;
    and whenever a list is returned, it never has more documents than
    there are stored products, and every listed document has a non-empty
    string [id] and no [_id]. *)
Theorem list_products_read_only (category q : option string) (limit : Z)
    (w : World) :
  (∀ c, docs_of (list_products category q limit w).2 c = docs_of w c) ∧
  (∀ listed,
     (list_products category q limit w).1 = Val (VList listed) →
     (length listed ≤ length (docs_of w "product"))%nat ∧
     Forall (λ v, ∃ (doc : dict) (i : string),
                    v = VDict doc ∧ doc !! "id" = Some (VStr i) ∧ i ≠ "" ∧
                    doc !! "_id" = None) listed).
Proof.
  split; [apply list_products_keeps_all|].
  intros listed Hrun.
  destruct (next_fault w) as [msg|] eqn:Hnf.
  - destruct (list_products_fail category q limit w msg Hnf) as [He _].
    rewrite He in Hrun. discriminate.
  - destruct (next_fault_None w Hnf) as (d & Hdb & _).
    destruct (filter_errors (db_regex d) (build_filter category q))
      as [|refusal rest] eqn:Herr.
    + rewrite (list_products_ok category q limit w d Hdb Hnf Herr) in Hrun.
      inversion Hrun; subst listed. clear Hrun. split.
      * rewrite length_fmap, length_take.
        etrans; [apply Nat.le_min_r|]. apply filter_length_le.
      * apply Forall_fmap, Forall_forall. intros sd _. simpl.
        exists (public sd), (oid_str (doc_oid sd)).
        split; [reflexivity|]. split; [apply public_fields|].
        split; [apply oid_str_nonempty|apply public_fields].
    + rewrite (list_products_refused category q limit w d refusal rest Hdb Hnf Herr)
        in Hrun.
      discriminate.
Qed.

Lemma list_products_read_only_witness :
  ∃ listed,
    (list_products None None default_limit stocked_world).1 = Val (VList listed) ∧
    (length listed ≤ length (docs_of stocked_world "product"))%nat ∧
    Forall (λ v, ∃ (doc : dict) (i : string),
                   v = VDict doc ∧ doc !! "id" = Some (VStr i) ∧ i ≠ "" ∧
                   doc !! "_id" = None) listed.
Proof.
  assert (Hrun : (list_products None None default_limit stocked_world).1
                 = Val (VList ((λ sd, VDict (public sd))
                                 <$> docs_of stocked_world "product")))
    by reflexivity.
  eexists. split; [exact Hrun|].
  exact (proj2 (list_products_read_only None None default_limit stocked_world)
           _ Hrun).
Defined.

(** ** A declared total equal to the recomputed one *)

(** [abs(c - c) > 0.01] is false for every float [c], the infinities and
    NaN included. *)
Lemma exact_difference_within_tolerance (c : float) :
  PrimFloat.ltb tolerance (abs (c - c)) = false.
Proof.
  rewrite FloatAxioms.ltb_spec, FloatAxioms.abs_spec, FloatAxioms.sub_spec.
  unfold SF64sub.
  destruct (Prim2SF c) as [s|s| |s m e].
  - by destruct s.
  - by destruct s.
  - reflexivity.
  - cbn [SFsub]. by rewrite Z.min_id, Z.sub_diag.
Qed.

(** X19: the total check never refuses an exact match: when the declared
    [total_amount] is the very float the handler recomputes, the check
    passes, so the answer is never the 400 "Invalid total amount", and on
    a store whose write succeeds the order is created. *)
Theorem exact_total_is_accepted (order : Order.t) (w : World) :
  computed_total order = Val (Order.total_amount order) →
  (create_order order w).1 ≠ Exc (HTTPException 400 "Invalid total amount") ∧
  (next_fault w = None →
   ∃ oid, (create_order order w).1 = Val (VDict {["id" := VStr (oid_str oid)]})).
Proof.
  intros Hc. rewrite (create_order_checked order w _ Hc).
  unfold total_mismatch. rewrite exact_difference_within_tolerance. split.
  - unfold_M.
    destruct (create_document "order" (Order.model_dump order) w) as [[a|e|] w1];
      simpl; discriminate.
  - intros Hnf. destruct (next_fault_None w Hnf) as (d & Hdb & _).
    destruct (create_document_ok "order" (Order.model_dump order) w d Hdb Hnf)
      as (d' & Hrun & _).
    unfold_M. rewrite Hrun. simpl. by eexists.
Qed.

Lemma exact_total_is_accepted_witness :
  computed_total (order_with_total 90) = Val (Order.total_amount (order_with_total 90)) ∧
  (create_order (order_with_total 90) empty_world).1
  ≠ Exc (HTTPException 400 "Invalid total amount") ∧
  ∃ oid, (create_order (order_with_total 90) empty_world).1
         = Val (VDict {["id" := VStr (oid_str oid)]}).
Proof.
  assert (Hc : computed_total (order_with_total 90)
               = Val (Order.total_amount (order_with_total 90))) by reflexivity.
  split; [exact Hc|].
  destruct (exact_total_is_accepted (order_with_total 90) empty_world Hc) as [Hno Hyes].
  split; [exact Hno|]. exact (Hyes eq_refl).
Defined.

(** ** Seeding is not atomic *)

Lemma create_document_fail_exact (coll : string) (data : dict) (w : World)
    (d : Database) (msg : string) (rest : list (option string)) :
  db w = Some d →
  db_faults d = Some msg :: rest →
  create_document coll data w
  = (Exc (Exception msg),
     {| db := Some (set_faults rest d);
        calls := calls w ++ [call_create_document coll] |}).
Proof.
  intros Hdb Hf. unfold create_document. unfold_M. unfold round_trip. simpl.
  by rewrite Hdb, Hf.
Qed.

(** Inserting a list of documents on a store whose [k]-th next write
    fails: the first [k] documents are in, the failure is raised, the
    remaining ones are never tried. *)
Lemma for_each_create_document_fails (coll : string) (ps : list dict) :
  ∀ (k : nat) (w : World) (d : Database) (msg : string) (rest : list (option string)),
    db w = Some d →
    db_faults d = replicate k None ++ Some msg :: rest →
    (k < length ps)%nat →
    ∃ (w' : World) (docs : list StoredDoc),
      for_each ps (λ p, discard (create_document coll p)) w
      = (Exc (Exception msg), w') ∧
      (∀ c, docs_of w' c
            = if decide (c = coll) then docs_of w c ++ docs else docs_of w c) ∧
      doc_fields <$> docs = delete "_id" <$> take k ps.
Proof.
  induction ps as [|p ps IH]; intros k w d msg rest Hdb Hf Hk; [simpl in Hk; lia|].
  destruct k as [|k].
  - simpl in Hf.
    exists {| db := Some (set_faults rest d);
              calls := calls w ++ [call_create_document coll] |}, [].
    split; [|split; [|reflexivity]].
    + simpl. unfold discard. unfold_M.
      by rewrite (create_document_fail_exact coll p w d msg rest Hdb Hf).
    + intros c. rewrite (docs_of_same_db w d) by assumption.
      case_decide; by rewrite ?app_nil_r.
  - simpl in Hf.
    assert (Hnf : next_fault w = None).
    { unfold next_fault. by rewrite Hdb, Hf. }
    destruct (create_document_ok coll p w d Hdb Hnf)
      as (d1 & Hrun & Hcolls & _ & Hfaults & _).
    rewrite Hf in Hfaults. simpl in Hfaults.
    set (w1 := {| db := Some d1; calls := calls w ++ [call_create_document coll] |}) in *.
    destruct (IH k w1 d1 msg rest eq_refl Hfaults ltac:(simpl in Hk; lia))
      as (w' & docs & Hrest & Hdocs & Hfields).
    exists w', (mk_doc (db_next_oid d) (delete "_id" p) :: docs).
    split; [|split].
    + simpl. unfold discard. unfold_M. rewrite Hrun. exact Hrest.
    + intros c. rewrite Hdocs. unfold w1.
      rewrite !(docs_of_inserted w d d1 _ coll _ _ Hdb Hcolls).
      case_decide as Heq; [|reflexivity].
      subst c. by rewrite <- app_assoc.
    + rewrite firstn_cons, !fmap_cons. simpl. by rewrite Hfields.
Qed.

(** X8: seeding is not atomic.  On an empty product collection, when the
    probe and the first [k] writes succeed and the next write fails
    ([k] < 5), [seed_products] raises status 500 with that failure and
    leaves the first [k] demo products in the store.  From then on, with
    [k] at least 1, a further seeding finds the collection non-empty and
    adds nothing: the demo data stays incomplete. *)
Theorem seed_products_partial (w : World) (d : Database) (k : nat) (msg : string)
    (rest : list (option string)) :
  db w = Some d →
  docs_of w "product" = [] →
  db_faults d = None :: replicate k None ++ Some msg :: rest →
  (k < 5)%nat →
  (seed_products w).1 = Exc (HTTPException 500 msg) ∧
  doc_fields <$> docs_of (seed_products w).2 "product" = take k demo_products ∧
  (∀ c, c ≠ "product" → docs_of (seed_products w).2 c = docs_of w c) ∧
  ((1 ≤ k)%nat →
   ∀ c, docs_of (seed_products (seed_products w).2).2 c
        = docs_of (seed_products w).2 c).
Proof.
  intros Hdb Hempty Hf Hk.
  assert (Hnf : next_fault w = None).
  { unfold next_fault. by rewrite Hdb, Hf. }
  set (d1 := set_faults (tail (db_faults d)) d).
  set (w1 := {| db := Some d1; calls := calls w ++ [call_get_documents "product"] |}).
  assert (Hf1 : db_faults d1 = replicate k None ++ Some msg :: rest).
  { unfold d1. simpl. by rewrite Hf. }
  assert (Hsame : ∀ c, docs_of w1 c = docs_of w c).
  { intros c. by apply docs_of_same_db. }
  destruct (for_each_create_document_fails "product" demo_products k w1 d1 msg rest
              eq_refl Hf1 Hk) as (w' & docs & Hrun & Hdocs & Hfields).
  assert (Heq : seed_products w = (Exc (HTTPException 500 msg), w')).
  { unfold seed_products, try_except. unfold mbind at 1. unfold M_bind, bind.
    rewrite (probe_products w d Hdb Hnf), Hempty.
    cbn [fmap list_fmap take]. unfold mbind at 1. unfold M_bind, bind.
    fold d1. fold w1. rewrite Hrun. reflexivity. }
  assert (Hproducts : doc_fields <$> docs_of w' "product" = take k demo_products).
  { rewrite Hdocs, decide_True by reflexivity.
    rewrite Hsame, Hempty, app_nil_l, Hfields.
    by rewrite fmap_take, demo_products_have_no_id. }
  rewrite Heq. cbn [fst snd].
  split; [reflexivity|]. split; [exact Hproducts|]. split.
  - intros c Hc. by rewrite Hdocs, decide_False, Hsame.
  - intros Hk1. apply seed_products_nonempty.
    intros Hnil. rewrite Hnil in Hproducts. simpl in Hproducts.
    destruct k as [|k]; [lia|]. discriminate.
Qed.

Lemma seed_products_partial_witness :
  (seed_products flaky_world).1 = Exc (HTTPException 500 "disk full") ∧
  doc_fields <$> docs_of (seed_products flaky_world).2 "product"
  = take 2 demo_products ∧
  (∀ c, c ≠ "product" → docs_of (seed_products flaky_world).2 c
                        = docs_of flaky_world c) ∧
  ((1 ≤ 2)%nat →
   ∀ c, docs_of (seed_products (seed_products flaky_world).2).2 c
        = docs_of (seed_products flaky_world).2 c).
Proof.
  apply (seed_products_partial flaky_world
           (set_faults [None; None; None; Some "disk full"] campus_db)
           2 "disk full" []).
  - reflexivity.
  - reflexivity.
  - reflexivity.
  - lia.
Defined.

(** ** Diagnostics: the remaining entries and the store calls *)

Lemma test_database_world (env : gmap string string) (w : World) :
  (test_database env w).2 = (probe initial_response w).2.
Proof.
  destruct (test_database_runs env w) as (r & _ & Hrun). by rewrite Hrun.
Qed.

Lemma probe_entries (w : World) :
  ∃ r : dict,
    (probe initial_response w).1 = Val r ∧
    r !! "backend" = Some (VStr "✅ Running") ∧
    r !! "connection_status"
    = Some (VStr (match db w with Some _ => "Connected" | None => "Not Connected" end)) ∧
    r !! "collections"
    = Some (VList (match db w with
                   | Some d =>
                       match db_faults d with
                       | Some _ :: _ => []
                       | _ => VStr <$> take 10 (map_to_list (db_colls d)).*1
                       end
                   | None => []
                   end)) ∧
    calls (probe initial_response w).2
    = calls w ++ match db w with
                 | Some _ => [call_list_collection_names]
                 | None => []
                 end.
Proof.
  unfold probe. destruct (db w) as [d|] eqn:Hdb.
  - unfold try_except, list_collection_names. unfold mbind, M_bind, bind, log.
    unfold round_trip. cbn [db calls]. rewrite Hdb.
    destruct (db_faults d) as [|[msg|] rest] eqn:Hf;
      unfold mret, M_ret, ret; cbn [tail collection_names fst snd str_exn];
      eexists; (split; [reflexivity|]);
      rewrite !lookup_insert_ne by done;
      (split; [reflexivity|]);
      rewrite ?lookup_insert_eq; rewrite ?lookup_insert_ne by done;
      rewrite ?lookup_insert_eq; (split; [reflexivity|]);
      rewrite ?lookup_insert_ne by done; rewrite ?lookup_insert_eq;
      split; reflexivity.
  - eexists. cbn [fst snd]. split; [reflexivity|].
    rewrite !lookup_insert_ne by done. rewrite app_nil_r.
    repeat split; reflexivity.
Qed.

(** X9: in the diagnostics, [backend] is always "✅ Running";
    [connection_status] is "Connected" exactly when a store handle exists,
    also when listing the collections fails; [collections] holds the first
    10 collection names when that listing succeeds and is empty otherwise.
    The handler calls the store once when a handle exists and never when
    there is none. *)
Theorem test_database_entries (env : gmap string string) (w : World) :
  response_field (test_database env w) "backend" = Some (VStr "✅ Running") ∧
  response_field (test_database env w) "connection_status"
  = Some (VStr (match db w with Some _ => "Connected" | None => "Not Connected" end)) ∧
  response_field (test_database env w) "collections"
  = Some (VList (match db w with
                 | Some d =>
                     match db_faults d with
                     | Some _ :: _ => []
                     | _ => VStr <$> take 10 (map_to_list (db_colls d)).*1
                     end
                 | None => []
                 end)) ∧
  calls_made (test_database env) w
  = match db w with
    | Some _ => [call_list_collection_names]
    | None => []
    end.
Proof.
  destruct (probe_entries w) as (r & Hr & Hbackend & Hstatus & Hcolls & Hcalls).
  destruct (test_database_runs env w) as (r' & Hr' & Hrun).
  rewrite Hr in Hr'. inversion Hr'; subst r'. clear Hr'.
  unfold response_field, calls_made. rewrite Hrun. cbn [fst snd].
  rewrite !lookup_insert_ne by done.
  repeat split; try assumption.
  rewrite Hcalls. by rewrite drop_app_length.
Qed.

(** ** Which collection a request can touch *)

Lemma inserts_still {A : Type} (t : string) (m : M A) :
  (∀ w c, docs_of (m w).2 c = docs_of w c) → inserts_into t 0 m.
Proof.
  intros Hm w c. exists []. rewrite app_nil_r. split; [apply Hm|]. by split.
Qed.

Lemma inserts_weaken {A : Type} (t : string) (n n' : nat) (m : M A) :
  (n ≤ n')%nat → inserts_into t n m → inserts_into t n' m.
Proof.
  intros Hn Hm w c. destruct (Hm w c) as (new & Heq & Hlen & Hother).
  exists new. split; [assumption|]. split; [lia|assumption].
Qed.

Lemma inserts_bind {A B : Type} (t : string) (n1 n2 : nat) (m : M A) (k : A → M B) :
  inserts_into t n1 m → (∀ a, inserts_into t n2 (k a)) →
  inserts_into t (n1 + n2) (bind m k).
Proof.
  intros Hm Hk w c. destruct (Hm w c) as (new1 & Heq1 & Hlen1 & Hother1).
  unfold bind. destruct (m w) as [[a|e|] w1]; simpl in *.
  - destruct (Hk a w1 c) as (new2 & Heq2 & Hlen2 & Hother2).
    exists (new1 ++ new2). rewrite Heq2, Heq1, app_assoc, length_app.
    split; [reflexivity|]. split; [lia|].
    intros Hc. by rewrite Hother1, Hother2.
  - exists new1. split; [assumption|]. split; [lia|assumption].
  - exists new1. split; [assumption|]. split; [lia|assumption].
Qed.

Lemma inserts_try_except {A : Type} (t : string) (n1 n2 : nat) (body : M A)
    (handler : exn → M A) :
  inserts_into t n1 body → (∀ e, inserts_into t n2 (handler e)) →
  inserts_into t (n1 + n2) (try_except body handler).
Proof.
  intros Hb Hh w c. destruct (Hb w c) as (new1 & Heq1 & Hlen1 & Hother1).
  unfold try_except. destruct (body w) as [[a|e|] w1]; simpl in *.
  - exists new1. split; [assumption|]. split; [lia|assumption].
  - destruct (Hh e w1 c) as (new2 & Heq2 & Hlen2 & Hother2).
    exists (new1 ++ new2). rewrite Heq2, Heq1, app_assoc, length_app.
    split; [reflexivity|]. split; [lia|].
    intros Hc. by rewrite Hother1, Hother2.
  - exists new1. split; [assumption|]. split; [lia|assumption].
Qed.

Lemma inserts_round_trip_read {A : Type} (t : string) (op : Database → A * Database) :
  (∀ d, (op d).2 = d) → inserts_into t 0 (round_trip op).
Proof.
  intros Hop. apply inserts_still. intros w c. unfold round_trip.
  destruct (db w) as [d|] eqn:Hdb; [|reflexivity].
  destruct (db_faults d) as [|[msg|] rest]; simpl;
    try (by apply docs_of_same_db);
    match goal with
    | |- context [op ?x] =>
        specialize (Hop x); destruct (op x) as [a d1]; simpl in Hop; subst d1;
        by apply docs_of_same_db
    end.
Qed.

Lemma inserts_create_document (coll : string) (data : dict) :
  inserts_into coll 1 (create_document coll data).
Proof.
  intros w c. destruct (next_fault w) as [msg|] eqn:Hnf.
  - exists []. rewrite app_nil_r.
    split; [apply (create_document_fail coll data w msg Hnf)|].
    split; [simpl; lia|done].
  - destruct (next_fault_None w Hnf) as (d & Hdb & _).
    destruct (create_document_ok coll data w d Hdb Hnf) as (d' & Hrun & Hcolls & _).
    rewrite Hrun. cbn [snd].
    rewrite (docs_of_inserted w d d' _ coll c _ Hdb Hcolls).
    case_decide as Hc.
    + subst c. eexists [_]. split; [reflexivity|]. split; [simpl; lia|done].
    + exists []. rewrite app_nil_r. split; [reflexivity|]. split; [simpl; lia|done].
Qed.

Lemma inserts_get_documents (t coll : string) (filt : gmap string fval) (limit : Z) :
  inserts_into t 0 (get_documents coll filt limit).
Proof.
  unfold get_documents, mbind, M_bind.
  apply (inserts_bind t 0 0); [by apply inserts_still|].
  intros _. apply (inserts_bind t 0 0); [by apply inserts_round_trip_read|].
  intros; by apply inserts_still.
Qed.

Lemma inserts_list_collection_names (t : string) :
  inserts_into t 0 list_collection_names.
Proof.
  unfold list_collection_names, mbind, M_bind.
  apply (inserts_bind t 0 0); [by apply inserts_still|].
  intros _. by apply inserts_round_trip_read.
Qed.

Lemma inserts_for_each {A : Type} (t : string) (n : nat) (l : list A)
    (body : A → M unit) :
  (∀ x, inserts_into t n (body x)) →
  inserts_into t (length l * n) (for_each l body).
Proof.
  intros Hbody. induction l as [|x l IH]; [by apply inserts_still|].
  simpl. apply inserts_bind; [apply Hbody|]. intros _. exact IH.
Qed.

Lemma inserts_create_product (product : Product.t) :
  inserts_into "product" 1 (create_product product).
Proof.
  unfold create_product. apply (inserts_try_except _ 1 0); [|intros; by apply inserts_still].
  unfold mbind, mret, M_bind, M_ret.
  apply (inserts_bind _ 1 0); [apply inserts_create_document|].
  intros; by apply inserts_still.
Qed.

Lemma inserts_seed_products :
  inserts_into "product" (length demo_products) seed_products.
Proof.
  unfold seed_products.
  apply (inserts_try_except _ (0 + (5 * 1 + 0)) 0); [|intros; by apply inserts_still].
  unfold mbind, mret, M_bind, M_ret.
  apply inserts_bind; [apply inserts_get_documents|].
  intros [|doc docs].
  - apply inserts_bind; [|intros; by apply inserts_still].
    apply (inserts_for_each _ 1 demo_products). intros p. unfold discard.
    apply (inserts_bind _ 1 0); [apply inserts_create_document|].
    intros; by apply inserts_still.
  - apply (inserts_weaken _ 0); [lia|]. by apply inserts_still.
Qed.

Lemma inserts_create_order (order : Order.t) :
  inserts_into "order" 1 (create_order order).
Proof.
  unfold create_order. unfold mbind at 1. unfold M_bind.
  apply (inserts_bind _ 0 1); [by apply inserts_still|]. intros computed.
  destruct (total_mismatch computed order).
  - apply (inserts_weaken _ 0); [lia|]. by apply inserts_still.
  - apply (inserts_try_except _ 1 0); [|intros; by apply inserts_still].
    unfold mbind, mret, M_bind, M_ret.
  apply (inserts_bind _ 1 0); [apply inserts_create_document|].
    intros; by apply inserts_still.
Qed.

Lemma test_database_keeps_all (env : gmap string string) (w : World) (c : string) :
  docs_of (test_database env w).2 c = docs_of w c.
Proof.
  rewrite test_database_world.
  destruct (probe_initial w) as (r & names & _ & Hdocs & _). apply Hdocs.
Qed.

Lemma app_footprint_aux (env : gmap string string) (req : request) (w : World)
    (c : string) :
  ∃ new : list StoredDoc,
    docs_of (app env req w).2 c = docs_of w c ++ new ∧
    (length new ≤ max_inserts req)%nat ∧
    (writes_to req ≠ Some c → new = []).
Proof.
  assert (Hh : ∀ (t : string) (n : nat) (m : M value),
             inserts_into t n m →
             ∃ new, docs_of (handled m w).2 c = docs_of w c ++ new ∧
                    (length new ≤ n)%nat ∧ (Some t ≠ Some c → new = [])).
  { intros t n m Hm. destruct (Hm w c) as (new & Heq & Hlen & Hother).
    exists new. unfold handled. destruct (m w) as [o w1].
    split; [assumption|]. split; [assumption|].
    intros Hne. apply Hother. congruence. }
  assert (Hnone : ∀ m : M value,
             (∀ w c, docs_of (m w).2 c = docs_of w c) →
             ∃ new, docs_of (handled m w).2 c = docs_of w c ++ new ∧
                    (length new ≤ 0)%nat ∧ (None ≠ Some c → new = [])).
  { intros m Hm. exists []. unfold handled. specialize (Hm w c).
    destruct (m w) as [o w1]. rewrite app_nil_r. by repeat split. }
  destruct req as [|body|category q limit| |body|]; unfold app, writes_to, max_inserts.
  - by apply Hnone.
  - destruct (Product.validate body).
    + exists []. rewrite app_nil_r. split; [reflexivity|]. split; [simpl; lia|done].
    + apply Hh, inserts_create_product.
  - apply Hnone. intros w' c'. apply list_products_keeps_all.
  - apply Hh, inserts_seed_products.
  - destruct (Order.validate body).
    + exists []. rewrite app_nil_r. split; [reflexivity|]. split; [simpl; lia|done].
    + apply Hh, inserts_create_order.
  - apply Hnone. intros w' c'. apply test_database_keeps_all.
Qed.

(** X10: the footprint of a request.  Whatever the request and the store
    state, the documents of every collection afterwards are those before
    followed by new ones; there are at most 5 new ones for a seeding, one
    for a creation and none otherwise; and they only go to [product]
    (product creation, seeding) or to [order] (order creation).  A body
    refused by its schema leaves the whole state as it was, the record of
    store calls included, and the three GET requests change no document. *)
Theorem app_footprint (env : gmap string string) (req : request) (w : World)
    (c : string) :
  (∃ new : list StoredDoc,
     docs_of (app env req w).2 c = docs_of w c ++ new ∧
     (length new ≤ max_inserts req)%nat ∧
     (writes_to req ≠ Some c → new = [])) ∧
  (∀ errs, (app env req w).1 = Unprocessable errs → (app env req w).2 = w) ∧
  match req with
  | GET_root | GET_products _ _ _ | GET_test =>
      docs_of (app env req w).2 c = docs_of w c
  | POST_products _ | POST_seed | POST_orders _ => True
  end.
Proof.
  split; [|split].
  - destruct (app_footprint_aux env req w c) as (new & Hnew).
    exists new. exact Hnew.
  - intros errs.
    assert (Hh : ∀ m : M value,
               (handled m w).1 = Unprocessable errs → (handled m w).2 = w).
    { intros m. unfold handled. destruct (m w) as [o w1]. discriminate. }
    destruct req as [|body|category q limit| |body|]; unfold app; try apply Hh.
    + destruct (Product.validate body); [reflexivity|apply Hh].
    + destruct (Order.validate body); [reflexivity|apply Hh].
  - destruct (app_footprint_aux env req w c) as (new & Heq & _ & Hother).
    destruct req as [|body|category q limit| |body|]; try exact I;
      rewrite Heq, Hother, app_nil_r by discriminate; reflexivity.
Qed.

Lemma app_footprint_witness :
  writes_to (POST_products no_title_payload) ≠ Some "order" ∧
  (app ∅ (POST_products no_title_payload) flaky_world).1
  = Unprocessable [missing "title"] ∧
  (∃ new : list StoredDoc,
     docs_of (app ∅ (POST_products no_title_payload) flaky_world).2 "order"
     = docs_of flaky_world "order" ++ new ∧
     (length new ≤ max_inserts (POST_products no_title_payload))%nat ∧
     new = []) ∧
  (app ∅ (POST_products no_title_payload) flaky_world).2 = flaky_world.
Proof.
  assert (Hne : writes_to (POST_products no_title_payload) ≠ Some "order")
    by discriminate.
  assert (Hrefused : (app ∅ (POST_products no_title_payload) flaky_world).1
                     = Unprocessable [missing "title"])
    by reflexivity.
  split; [exact Hne|]. split; [exact Hrefused|].
  destruct (app_footprint ∅ (POST_products no_title_payload) flaky_world "order")
    as ((new & Heq & Hlen & Hother) & Hsame & _).
  split.
  - exists new. split; [exact Heq|]. split; [exact Hlen|]. exact (Hother Hne).
  - exact (Hsame _ Hrefused).
Defined.

(** X11: over any sequence of requests, a collection other than [product]
    and [order] is never written; a sequence of requests that write
    nowhere (the three GETs) leaves every collection as it was; and no
    collection grows by more than the requests allow together. *)
Theorem run_footprint (env : gmap string string) (reqs : list request)
    (w : World) (c : string) :
  (c ≠ "product" → c ≠ "order" → docs_of (run env reqs w) c = docs_of w c) ∧
  (Forall (λ req, writes_to req = None) reqs →
   docs_of (run env reqs w) c = docs_of w c) ∧
  (length (docs_of (run env reqs w) c)
   ≤ length (docs_of w c) + sum_list (max_inserts <$> reqs))%nat.
Proof.
  revert w. induction reqs as [|req reqs IH]; intros w.
  { simpl. repeat split; try reflexivity. lia. }
  destruct (IH (app env req w).2) as (IH1 & IH2 & IH3).
  destruct (app_footprint_aux env req w c) as (new & Heq & Hlen & Hother).
  split; [|split]; cbn [run].
  - intros Hp Ho. rewrite IH1, Heq by assumption.
    rewrite Hother; [by rewrite app_nil_r|].
    destruct req; simpl; congruence.
  - intros Hall. apply Forall_cons in Hall as [Hreq Hall].
    rewrite IH2, Heq by assumption.
    rewrite Hother; [by rewrite app_nil_r|]. by rewrite Hreq.
  - rewrite fmap_cons. simpl. etrans; [apply IH3|].
    rewrite Heq, length_app. lia.
Qed.

Lemma run_footprint_witness :
  docs_of (run ∅ [POST_seed; GET_test] empty_world) "user"
  = docs_of empty_world "user" ∧
  docs_of (run ∅ [GET_root; GET_products None None None; GET_test] stocked_world)
    "product"
  = docs_of stocked_world "product".
Proof.
  split.
  - apply (proj1 (run_footprint ∅ [POST_seed; GET_test] empty_world "user"));
      discriminate.
  - apply (proj1 (proj2 (run_footprint ∅
                           [GET_root; GET_products None None None; GET_test]
                           stocked_world "product"))).
    repeat (apply Forall_cons; split; [reflexivity|]). apply Forall_nil_2.
Defined.

(** ** Schema validation *)

(** A float that is at least 0 is a number: [NaN >= 0] is false. *)
Lemma leb_zero_not_nan (f : float) :
  PrimFloat.leb 0 f = true → PrimFloat.is_nan f = false.
Proof.
  rewrite FloatAxioms.leb_spec. unfold PrimFloat.is_nan.
  rewrite FloatAxioms.eqb_spec.
  change (Prim2SF 0) with (S754_zero false).
  destruct (Prim2SF f) as [s|s| |s m e]; simpl; try discriminate; try reflexivity.
  - by destruct s.
  - intros _. unfold SFeqb, SFcompare.
    rewrite Z.compare_refl, Pos.compare_cont_refl. by destruct s.
Qed.

Lemma Product_validate_inr (body : Product.payload) (p : Product.t) :
  Product.validate body = inr p →
  ∃ ti pr ca,
    Product.p_title body = Some ti ∧ Product.p_price body = Some pr ∧
    Product.p_category body = Some ca ∧ PrimFloat.leb 0 pr = true ∧
    p = {| Product.title := ti; Product.description := Product.p_description body;
           Product.price := pr; Product.category := ca;
           Product.in_stock := default true (Product.p_in_stock body);
           Product.image := Product.p_image body;
           Product.seller_name := Product.p_seller_name body |}.
Proof.
  unfold Product.validate, Product.errors.
  destruct (Product.p_title body) as [ti|]; [|discriminate].
  destruct (Product.p_price body) as [pr|]; [|discriminate].
  destruct (Product.p_category body) as [ca|];
    simpl; destruct (PrimFloat.leb 0 pr) eqn:Hge; simpl; try discriminate.
  intros [= <-]. by exists ti, pr, ca.
Qed.

Lemma Product_validate_inl (body : Product.payload) (errs : list verr) :
  Product.validate body = inl errs → errs = Product.errors body ∧ errs ≠ [].
Proof.
  unfold Product.validate, Product.errors.
  destruct (Product.p_title body) as [ti|];
    destruct (Product.p_price body) as [pr|];
    destruct (Product.p_category body) as [ca|];
    simpl; try destruct (PrimFloat.leb 0 pr); simpl;
    intros [= <-]; split; (reflexivity || discriminate).
Qed.

(** X12: what the [Product] schema lets through.  A body is accepted
    exactly when it has a title, a category and a price that is at least
    0; the accepted product carries the body's fields unchanged, with
    [in_stock] true when the body left it out, and its price is never NaN.
    A refused body comes with at least one error. *)
Theorem Product_validate_spec (body : Product.payload) :
  ((∃ p, Product.validate body = inr p) ↔
   is_Some (Product.p_title body) ∧ is_Some (Product.p_category body) ∧
   ∃ pr, Product.p_price body = Some pr ∧ PrimFloat.leb 0 pr = true) ∧
  (∀ p, Product.validate body = inr p →
        Product.p_title body = Some (Product.title p) ∧
        Product.p_price body = Some (Product.price p) ∧
        Product.p_category body = Some (Product.category p) ∧
        Product.description p = Product.p_description body ∧
        Product.image p = Product.p_image body ∧
        Product.seller_name p = Product.p_seller_name body ∧
        Product.in_stock p = default true (Product.p_in_stock body) ∧
        PrimFloat.is_nan (Product.price p) = false) ∧
  (∀ errs, Product.validate body = inl errs → errs ≠ []).
Proof.
  split; [split|split].
  - intros [p Hp].
    destruct (Product_validate_inr body p Hp) as (ti & pr & ca & Ht & Hpr & Hc & Hge & _).
    rewrite Ht, Hc. eauto.
  - intros ([ti Ht] & [ca Hc] & pr & Hpr & Hge).
    unfold Product.validate, Product.errors. rewrite Ht, Hpr, Hc. simpl.
    rewrite Hge. simpl. by eexists.
  - intros p Hp.
    destruct (Product_validate_inr body p Hp) as (ti & pr & ca & Ht & Hpr & Hc & Hge & ->).
    simpl. repeat split; try assumption. by apply leb_zero_not_nan.
  - intros errs He. by apply (Product_validate_inl body errs).
Qed.

Lemma Product_validate_spec_witness :
  (∃ p, Product.validate untitled_payload = inr p) ∧
  Product.validate no_title_payload = inl [missing "title"] ∧
  [missing "title"] ≠ [].
Proof.
  assert (Hno : Product.validate no_title_payload = inl [missing "title"])
    by reflexivity.
  split; [|split; [exact Hno|]].
  - apply (proj1 (Product_validate_spec untitled_payload)).
    split; [by eexists|]. split; [by eexists|]. by exists 10%float.
  - exact (proj2 (proj2 (Product_validate_spec no_title_payload)) _ Hno).
Defined.

Lemma OrderItem_validate_inr (body : OrderItem.payload) (i : OrderItem.t) :
  OrderItem.validate body = inr i →
  ∃ pid ti pr qu,
    OrderItem.p_product_id body = Some pid ∧ OrderItem.p_title body = Some ti ∧
    OrderItem.p_price body = Some pr ∧ OrderItem.p_quantity body = Some qu ∧
    PrimFloat.leb 0 pr = true ∧ 1 ≤ qu ∧
    i = {| OrderItem.product_id := pid; OrderItem.title := ti;
           OrderItem.price := pr; OrderItem.quantity := qu;
           OrderItem.image := OrderItem.p_image body |}.
Proof.
  unfold OrderItem.validate, OrderItem.errors.
  destruct (OrderItem.p_product_id body) as [pid|]; [|discriminate].
  destruct (OrderItem.p_title body) as [ti|]; [|discriminate].
  destruct (OrderItem.p_price body) as [pr|];
    [|simpl; by destruct (OrderItem.p_quantity body) as [qu|];
              try destruct (1 <=? qu)].
  destruct (OrderItem.p_quantity body) as [qu|];
    [|simpl; by destruct (PrimFloat.leb 0 pr)].
  simpl. destruct (PrimFloat.leb 0 pr) eqn:Hge; simpl;
    destruct (1 <=? qu) eqn:Hqu; simpl; try discriminate.
  intros [= <-]. apply Z.leb_le in Hqu. by exists pid, ti, pr, qu.
Qed.

Lemma OrderItem_validate_inl (body : OrderItem.payload) (errs : list verr) :
  OrderItem.validate body = inl errs → errs = OrderItem.errors body ∧ errs ≠ [].
Proof.
  unfold OrderItem.validate, OrderItem.errors.
  destruct (OrderItem.p_product_id body) as [pid|];
    destruct (OrderItem.p_title body) as [ti|];
    destruct (OrderItem.p_price body) as [pr|];
    destruct (OrderItem.p_quantity body) as [qu|];
    simpl; try destruct (PrimFloat.leb 0 pr); simpl;
    try destruct (1 <=? qu); simpl;
    intros [= <-]; split; (reflexivity || discriminate).
Qed.

(** X13: what the [OrderItem] schema lets through: an item body is
    accepted exactly when it has a product id, a title, a price that is at
    least 0 and a quantity that is at least 1; the accepted item carries
    those values and the image unchanged, and its price is never NaN. *)
Theorem OrderItem_validate_spec (body : OrderItem.payload) :
  ((∃ i, OrderItem.validate body = inr i) ↔
   is_Some (OrderItem.p_product_id body) ∧ is_Some (OrderItem.p_title body) ∧
   (∃ pr, OrderItem.p_price body = Some pr ∧ PrimFloat.leb 0 pr = true) ∧
   (∃ qu, OrderItem.p_quantity body = Some qu ∧ 1 ≤ qu)) ∧
  (∀ i, OrderItem.validate body = inr i →
        OrderItem.p_product_id body = Some (OrderItem.product_id i) ∧
        OrderItem.p_title body = Some (OrderItem.title i) ∧
        OrderItem.p_price body = Some (OrderItem.price i) ∧
        OrderItem.p_quantity body = Some (OrderItem.quantity i) ∧
        OrderItem.image i = OrderItem.p_image body ∧
        PrimFloat.is_nan (OrderItem.price i) = false) ∧
  (∀ errs, OrderItem.validate body = inl errs → errs ≠ []).
Proof.
  split; [split|split].
  - intros [i Hi].
    destruct (OrderItem_validate_inr body i Hi)
      as (pid & ti & pr & qu & Hpid & Hti & Hpr & Hqu & Hge & Hq1 & _).
    rewrite Hpid, Hti. eauto 8.
  - intros ([pid Hpid] & [ti Hti] & (pr & Hpr & Hge) & (qu & Hqu & Hq1)).
    unfold OrderItem.validate, OrderItem.errors. rewrite Hpid, Hti, Hpr, Hqu.
    simpl. rewrite Hge. simpl.
    destruct (1 <=? qu) eqn:Hle; [simpl; by eexists|].
    apply Z.leb_gt in Hle. lia.
  - intros i Hi.
    destruct (OrderItem_validate_inr body i Hi)
      as (pid & ti & pr & qu & Hpid & Hti & Hpr & Hqu & Hge & Hq1 & ->).
    simpl. repeat split; try assumption. by apply leb_zero_not_nan.
  - intros errs He. by apply (OrderItem_validate_inl body errs).
Qed.

Lemma OrderItem_validate_spec_witness :
  OrderItem.validate zero_quantity_item = inl [greater_than_equal "quantity"] ∧
  [greater_than_equal "quantity"] ≠ [].
Proof.
  assert (Hno : OrderItem.validate zero_quantity_item
                = inl [greater_than_equal "quantity"]) by reflexivity.
  split; [exact Hno|].
  exact (proj2 (proj2 (OrderItem_validate_spec zero_quantity_item)) _ Hno).
Defined.

Lemma validate_items_inr (ps : list OrderItem.payload) :
  ∀ its, Order.validate_items ps = inr its →
         Forall2 (λ p i, OrderItem.validate p = inr i) ps its.
Proof.
  induction ps as [|p ps IH]; intros its; simpl.
  - intros [= <-]. constructor.
  - destruct (OrderItem.validate p) as [e|i] eqn:Hp;
      destruct (Order.validate_items ps) as [es|its']; try discriminate.
    intros [= <-]. constructor; [assumption|by apply IH].
Qed.

Lemma validate_items_inl (ps : list OrderItem.payload) :
  ∀ es, Order.validate_items ps = inl es → es ≠ [].
Proof.
  induction ps as [|p ps IH]; intros es; simpl; [discriminate|].
  destruct (OrderItem.validate p) as [e|i] eqn:Hp;
    destruct (Order.validate_items ps) as [es'|its'] eqn:Hps;
    intros [= <-].
  - destruct (OrderItem_validate_inl p e Hp) as [_ Hne].
    destruct e; [done|discriminate].
  - by apply (OrderItem_validate_inl p e Hp).
  - by apply IH.
Qed.

(** One refused item is enough to refuse the list, and its errors are
    among those reported. *)
Lemma validate_items_rejects (ps : list OrderItem.payload) (p : OrderItem.payload)
    (e : list verr) :
  p ∈ ps → OrderItem.validate p = inl e →
  ∃ es, Order.validate_items ps = inl es ∧ e ⊆ es.
Proof.
  induction ps as [|p' ps IH]; intros Hin Hp; [by apply elem_of_nil in Hin|].
  apply elem_of_cons in Hin as [<-|Hin]; simpl.
  - rewrite Hp. destruct (Order.validate_items ps) as [es'|its'].
    + eexists. split; [reflexivity|]. intros x Hx. apply elem_of_app. by left.
    + eexists. split; [reflexivity|]. done.
  - destruct (IH Hin Hp) as (es & -> & Hsub).
    destruct (OrderItem.validate p') as [e'|i'].
    + eexists. split; [reflexivity|]. intros x Hx. apply elem_of_app.
      right. by apply Hsub.
    + eexists. split; [reflexivity|]. exact Hsub.
Qed.

Lemma Order_validate_inr (body : Order.payload) (o : Order.t) :
  Order.validate body = inr o →
  ∃ bn be ps its ta,
    Order.p_buyer_name body = Some bn ∧ Order.p_buyer_email body = Some be ∧
    Order.p_items body = Some ps ∧ Order.validate_items ps = inr its ∧
    Order.p_total_amount body = Some ta ∧ PrimFloat.leb 0 ta = true ∧
    o = {| Order.buyer_name := bn; Order.buyer_email := be; Order.items := its;
           Order.payment_method := default "COD" (Order.p_payment_method body);
           Order.status := default "pending" (Order.p_status body);
           Order.total_amount := ta |}.
Proof.
  unfold Order.validate, Order.errors, Order.items_errors.
  destruct (Order.p_buyer_name body) as [bn|]; [|discriminate].
  destruct (Order.p_buyer_email body) as [be|]; [|discriminate].
  destruct (Order.p_items body) as [ps|]; [|discriminate].
  simpl. destruct (Order.validate_items ps) as [es|its] eqn:Hits.
  - pose proof (validate_items_inl ps es Hits) as Hne.
    destruct es as [|x es]; [done|]. discriminate.
  - simpl. destruct (Order.p_total_amount body) as [ta|]; [|discriminate].
    simpl. destruct (PrimFloat.leb 0 ta) eqn:Hge; [|discriminate].
    intros [= <-]. by exists bn, be, ps, its, ta.
Qed.

(** X14: what the [Order] schema guarantees of an accepted order: names
    and total are those of the body; the items are the body's items, as
    many and in the same order, each accepted by the item schema; every
    quantity is at least 1, every price and the total are at least 0 and
    none is NaN; payment method and status default to "COD" and "pending"
    when the body leaves them out. *)
Theorem Order_validate_spec (body : Order.payload) (o : Order.t) :
  Order.validate body = inr o →
  Order.p_buyer_name body = Some (Order.buyer_name o) ∧
  Order.p_buyer_email body = Some (Order.buyer_email o) ∧
  Order.p_total_amount body = Some (Order.total_amount o) ∧
  (∃ ps, Order.p_items body = Some ps ∧
         Forall2 (λ p i, OrderItem.validate p = inr i) ps (Order.items o)) ∧
  Forall (λ i, 1 ≤ OrderItem.quantity i ∧
               PrimFloat.leb 0 (OrderItem.price i) = true ∧
               PrimFloat.is_nan (OrderItem.price i) = false) (Order.items o) ∧
  PrimFloat.leb 0 (Order.total_amount o) = true ∧
  PrimFloat.is_nan (Order.total_amount o) = false ∧
  Order.payment_method o = default "COD" (Order.p_payment_method body) ∧
  Order.status o = default "pending" (Order.p_status body).
Proof.
  intros Ho.
  destruct (Order_validate_inr body o Ho)
    as (bn & be & ps & its & ta & Hbn & Hbe & Hps & Hits & Hta & Hge & ->).
  simpl. pose proof (validate_items_inr ps its Hits) as Hall.
  repeat split; try assumption; try (by apply leb_zero_not_nan).
  - by exists ps.
  - clear -Hall. induction Hall as [|p i ps its Hp _ IH]; constructor; [|exact IH].
    destruct (OrderItem_validate_inr p i Hp)
      as (pid & ti & pr & qu & _ & _ & _ & _ & Hge & Hq1 & ->).
    simpl. repeat split; try assumption. by apply leb_zero_not_nan.
Qed.

Lemma Order_validate_spec_witness :
  ∃ o, Order.validate maggi_order_payload = inr o ∧
       Order.payment_method o = default "COD" (Order.p_payment_method maggi_order_payload) ∧
       Order.status o = default "pending" (Order.p_status maggi_order_payload).
Proof.
  eexists. split; [reflexivity|].
  exact (proj2 (proj2 (proj2 (proj2 (proj2 (proj2 (proj2
           (Order_validate_spec maggi_order_payload _ eq_refl)))))))).
Defined.

Lemma User_validate_inr (body : User.payload) (u : User.t) :
  User.validate body = inr u →
  ∃ n e,
    User.p_name body = Some n ∧ User.p_email body = Some e ∧
    User.age_errors (User.p_age body) = [] ∧
    u = {| User.name := n; User.email := e; User.address := User.p_address body;
           User.age := User.p_age body;
           User.is_active := default true (User.p_is_active body) |}.
Proof.
  unfold User.validate, User.errors.
  destruct (User.p_name body) as [n|]; [|discriminate].
  destruct (User.p_email body) as [e|]; [|discriminate].
  simpl. destruct (User.age_errors (User.p_age body)) eqn:Hage; [|discriminate].
  intros [= <-]. by exists n, e.
Qed.

(** X15: what the [User] schema lets through: a body is accepted exactly
    when it has a name and an email and its age, when it gives one, lies
    between 0 and 120 inclusive; the accepted user carries the body's
    values, [is_active] being true when left out. *)
Theorem User_validate_spec (body : User.payload) :
  ((∃ u, User.validate body = inr u) ↔
   is_Some (User.p_name body) ∧ is_Some (User.p_email body) ∧
   ∀ z, User.p_age body = Some z → 0 ≤ z ≤ 120) ∧
  (∀ u, User.validate body = inr u →
        User.p_name body = Some (User.name u) ∧
        User.p_email body = Some (User.email u) ∧
        User.address u = User.p_address body ∧
        User.age u = User.p_age body ∧
        User.is_active u = default true (User.p_is_active body)).
Proof.
  split; [split|].
  - intros [u Hu].
    destruct (User_validate_inr body u Hu) as (n & e & Hn & He & Hage & _).
    rewrite Hn, He. split; [by eexists|]. split; [by eexists|].
    intros z Hz. rewrite Hz in Hage. unfold User.age_errors in Hage.
    destruct (z <? 0) eqn:H0; [discriminate|].
    destruct (120 <? z) eqn:H120; [discriminate|]. lia.
  - intros ([n Hn] & [e He] & Hage).
    unfold User.validate, User.errors. rewrite Hn, He. simpl.
    assert (Hok : User.age_errors (User.p_age body) = []).
    { unfold User.age_errors. destruct (User.p_age body) as [z|]; [|reflexivity].
      specialize (Hage z eq_refl).
      destruct (z <? 0) eqn:H0; [lia|]. destruct (120 <? z) eqn:H120; [lia|].
      reflexivity. }
    rewrite Hok. by eexists.
  - intros u Hu.
    destruct (User_validate_inr body u Hu) as (n & e & Hn & He & _ & ->).
    simpl. by repeat split.
Qed.

Lemma User_validate_spec_witness :
  let body := {| User.p_name := Some "Ananya";
                 User.p_email := Some "ananya@campus.example";
                 User.p_address := None; User.p_age := Some 120;
                 User.p_is_active := None |} in
  ∃ u, User.validate body = inr u ∧ User.is_active u = true.
Proof.
  intros body.
  destruct (proj2 (proj1 (User_validate_spec body))) as [u Hu].
  - split; [by eexists|]. split; [by eexists|].
    intros z [= <-]. lia.
  - exists u. split; [exact Hu|].
    exact (proj2 (proj2 (proj2 (proj2 (proj2 (User_validate_spec body) u Hu))))).
Defined.

(** ** Bodies refused before the handler *)

Lemma Order_validate_inl (body : Order.payload) (errs : list verr) :
  Order.validate body = inl errs → errs = Order.errors body.
Proof.
  unfold Order.validate. remember (Order.errors body) as E eqn:HE. clear HE.
  repeat case_match; intros [= <-]; reflexivity.
Qed.

(** X16: bounds are enforced before any handler runs.  A product body
    whose price is not at least 0 (a negative number, NaN) and an order
    body with an item whose quantity is below 1 are refused with a
    [greater_than_equal] error on that field, and the state is returned as
    it was found: the store is not called. *)
Theorem out_of_range_bodies_rejected (env : gmap string string) (w : World) :
  (∀ body pr,
     Product.p_price body = Some pr → PrimFloat.leb 0 pr = false →
     ∃ errs, greater_than_equal "price" ∈ errs ∧
             app env (POST_products body) w = (Unprocessable errs, w)) ∧
  (∀ body ps item qu,
     Order.p_items body = Some ps → item ∈ ps →
     OrderItem.p_quantity item = Some qu → qu < 1 →
     ∃ errs, greater_than_equal "quantity" ∈ errs ∧
             app env (POST_orders body) w = (Unprocessable errs, w)).
Proof.
  split.
  - intros body pr Hpr Hneg. exists (Product.errors body). split.
    + unfold Product.errors. rewrite Hpr. simpl. rewrite Hneg. set_solver.
    + unfold app. destruct (Product.validate body) as [errs|p] eqn:Hv.
      * by destruct (Product_validate_inl body errs Hv) as [-> _].
      * destruct (Product_validate_inr body p Hv)
          as (ti & pr' & ca & _ & Hpr' & _ & Hge & _).
        congruence.
  - intros body ps item qu Hps Hin Hqu Hlt.
    assert (Hitem : ∃ e, OrderItem.validate item = inl e ∧
                         greater_than_equal "quantity" ∈ e).
    { destruct (OrderItem.validate item) as [e|i] eqn:Hv.
      - exists e. split; [reflexivity|].
        destruct (OrderItem_validate_inl item e Hv) as [-> _].
        unfold OrderItem.errors. rewrite Hqu. simpl.
        destruct (1 <=? qu) eqn:Hle; [apply Z.leb_le in Hle; lia|]. set_solver.
      - destruct (OrderItem_validate_inr item i Hv)
          as (pid & ti & pr & qu' & _ & _ & _ & Hqu' & _ & Hq1 & _).
        rewrite Hqu in Hqu'. inversion Hqu'; subst. lia. }
    destruct Hitem as (e & He & Hge).
    destruct (validate_items_rejects ps item e Hin He) as (es & Hes & Hsub).
    exists (Order.errors body). split.
    + unfold Order.errors, Order.items_errors. rewrite Hps, Hes. set_solver.
    + unfold app. destruct (Order.validate body) as [errs|o] eqn:Hv.
      * by rewrite (Order_validate_inl body errs Hv).
      * destruct (Order_validate_inr body o Hv)
          as (bn & be & ps' & its & ta & _ & _ & Hps' & Hits & _).
        rewrite Hps in Hps'. inversion Hps'; subst. congruence.
Qed.

Lemma out_of_range_bodies_rejected_witness :
  let body := {| Order.p_buyer_name := Some "Ananya";
                 Order.p_buyer_email := Some "ananya@campus.example";
                 Order.p_items := Some [zero_quantity_item];
                 Order.p_payment_method := None; Order.p_status := None;
                 Order.p_total_amount := Some 0%float |} in
  ∃ errs, greater_than_equal "quantity" ∈ errs ∧
          app ∅ (POST_orders body) empty_world = (Unprocessable errs, empty_world).
Proof.
  intros body.
  apply (proj2 (out_of_range_bodies_rejected ∅ empty_world)
           body [zero_quantity_item] zero_quantity_item 0).
  - reflexivity.
  - apply list_elem_of_here.
  - reflexivity.
  - lia.
Defined.

(** ** An order without items *)

(** X17: the item list may be empty.  A body with buyer name, buyer email,
    no items and a declared total within 0.01 of zero passes the schema
    and the total check (the sum over no items is 0) and, on a store whose
    write succeeds, is persisted as an order with an empty item list. *)
Theorem empty_order_is_accepted (env : gmap string string) (w : World)
    (body : Order.payload) (bn be : string) (total : float) :
  Order.p_buyer_name body = Some bn →
  Order.p_buyer_email body = Some be →
  Order.p_items body = Some [] →
  Order.p_total_amount body = Some total →
  PrimFloat.leb 0 total = true →
  PrimFloat.ltb tolerance (abs (0 - total)) = false →
  next_fault w = None →
  ∃ (oid : N) (doc : StoredDoc),
    (app env (POST_orders body) w).1
    = Handled (Val (VDict {["id" := VStr (oid_str oid)]})) ∧
    docs_of (app env (POST_orders body) w).2 "order" = docs_of w "order" ++ [doc] ∧
    doc_oid doc = oid ∧
    doc_fields doc !! "items" = Some (VList []).
Proof.
  intros Hbn Hbe Hps Hta Hge Hle Hnf.
  set (o := {| Order.buyer_name := bn; Order.buyer_email := be; Order.items := [];
               Order.payment_method := default "COD" (Order.p_payment_method body);
               Order.status := default "pending" (Order.p_status body);
               Order.total_amount := total |}).
  assert (Hv : Order.validate body = inr o).
  { unfold Order.validate, Order.errors, Order.items_errors.
    rewrite Hbn, Hbe, Hps, Hta. simpl. by rewrite Hge. }
  destruct (next_fault_None w Hnf) as (d & Hdb & _).
  destruct (create_document_ok "order" (Order.model_dump o) w d Hdb Hnf)
    as (d' & Hrun & Hcolls & _).
  rewrite Order_model_dump_no_id in Hcolls.
  exists (db_next_oid d), (mk_doc (db_next_oid d) (Order.model_dump o)).
  unfold app. rewrite Hv. unfold handled.
  rewrite (create_order_checked o w 0%float eq_refl).
  unfold total_mismatch. cbn [Order.total_amount o]. rewrite Hle.
  unfold_M. rewrite Hrun. cbn [fst snd].
  split; [reflexivity|]. split; [|split; reflexivity].
  rewrite (docs_of_inserted w d d' _ "order" "order" _ Hdb Hcolls).
  by rewrite decide_True.
Qed.

Lemma empty_order_is_accepted_witness :
  ∃ (oid : N) (doc : StoredDoc),
    (app ∅ (POST_orders (empty_order_payload 0)) empty_world).1
    = Handled (Val (VDict {["id" := VStr (oid_str oid)]})) ∧
    docs_of (app ∅ (POST_orders (empty_order_payload 0)) empty_world).2 "order"
    = docs_of empty_world "order" ++ [doc] ∧
    doc_oid doc = oid ∧
    doc_fields doc !! "items" = Some (VList []).
Proof.
  apply (empty_order_is_accepted ∅ empty_world (empty_order_payload 0)
           "Ananya" "ananya@campus.example" 0%float); reflexivity.
Defined.

(** ** Store calls per request *)

Lemma round_trip_calls {A : Type} (op : Database → A * Database) (w : World) :
  calls (round_trip op w).2 = calls w.
Proof.
  unfold round_trip. destruct (db w) as [d|]; [|reflexivity].
  destruct (db_faults d) as [|[msg|] rest]; simpl;
    try reflexivity; by destruct (op _).
Qed.

Lemma create_document_calls (coll : string) (data : dict) (w : World) :
  calls (create_document coll data w).2 = calls w ++ [call_create_document coll].
Proof.
  unfold create_document. unfold_M.
  pose proof (round_trip_calls (insert_one coll data)
                {| db := db w; calls := calls w ++ [call_create_document coll] |}) as H.
  destruct (round_trip _ _) as [[a|e|] w1]; exact H.
Qed.

Lemma get_documents_calls (coll : string) (filt : gmap string fval) (limit : Z)
    (w : World) :
  calls (get_documents coll filt limit w).2 = calls w ++ [call_get_documents coll].
Proof.
  unfold get_documents. unfold_M.
  pose proof (round_trip_calls (find coll filt limit)
                {| db := db w; calls := calls w ++ [call_get_documents coll] |}) as H.
  destruct (round_trip _ _) as [[a|e|] w1]; exact H.
Qed.

(** X18: one store call per request, made whether or not the store is
    there and whether or not it fails: [create_product] calls
    [create_document] on [product] once, [list_products] calls
    [get_documents] on [product] once, and [create_order] calls
    [create_document] on [order] once when the total check passes and not
    at all when it fails or the recomputation raises. *)
Theorem store_calls_per_request (product : Product.t) (category q : option string)
    (limit : Z) (order : Order.t) (w : World) :
  calls_made (create_product product) w = [call_create_document "product"] ∧
  calls_made (list_products category q limit) w = [call_get_documents "product"] ∧
  calls_made (create_order order) w
  = match computed_total order with
    | Val c => if total_mismatch c order then [] else [call_create_document "order"]
    | _ => []
    end.
Proof.
  unfold calls_made. split; [|split].
  - unfold create_product. unfold_M.
    pose proof (create_document_calls "product" (Product.model_dump product) w) as H.
    destruct (create_document _ _ w) as [[a|e|] w1]; simpl in *;
      rewrite H; by rewrite drop_app_length.
  - unfold list_products. unfold_M.
    pose proof (get_documents_calls "product" (build_filter category q) limit w) as H.
    destruct (get_documents _ _ _ w) as [[docs|e|] w1]; simpl in *.
    + destruct (serialize_all docs); simpl; rewrite H; by rewrite drop_app_length.
    + rewrite H. by rewrite drop_app_length.
    + rewrite H. by rewrite drop_app_length.
  - destruct (computed_total order) as [c|e|] eqn:Hc.
    + rewrite (create_order_checked order w c Hc).
      destruct (total_mismatch c order); [simpl; by rewrite drop_all|].
      unfold_M.
      pose proof (create_document_calls "order" (Order.model_dump order) w) as H.
      destruct (create_document _ _ w) as [[a|e|] w1]; simpl in *;
        rewrite H; by rewrite drop_app_length.
    + unfold create_order. unfold mbind at 1. unfold M_bind, bind, lift.
      rewrite Hc. simpl. by rewrite drop_all.
    + unfold create_order. unfold mbind at 1. unfold M_bind, bind, lift.
      rewrite Hc. simpl. by rewrite drop_all.
Qed.
